(** * LocalWhisper: the Qwen3-ASR transcription server (scripts/transcribe.py)
      and the mel-spectrogram comparison script (scripts/compare_mel.py).

    A shallow embedding of the integer bookkeeping of the audio encoder, of
    the audio-embedding splice, of the quantization predicate, of the Hann
    windows and of the stdin/stdout request loop, with the properties the
    specification states about them. *)

From Stdlib Require Import ZArith List Bool Lia QArith Qround.
From Stdlib Require String Ascii.
From Stdlib Require Import Reals Lra.
From Stdlib Require PrimFloat.
Import ListNotations.

Set Default Goal Selector "!".

(* ===================================================================== *)
(** ** Shared helpers *)
(* ===================================================================== *)

Module Util.

Local Open Scope Z_scope.

(** Python's [enumerate]-style map: the function sees the index (a Python
    int) and the element. *)
Fixpoint mapi_from {A B : Type} (i : Z) (f : Z -> A -> B) (l : list A) : list B :=
  match l with
  | [] => []
  | x :: l' => f i x :: mapi_from (i + 1) f l'
  end.

Definition mapi {A B : Type} (f : Z -> A -> B) (l : list A) : list B :=
  mapi_from 0 f l.

(** [l[i]] for an index known to be in range; [d] out of range. *)
Definition nthZ {A : Type} (i : Z) (l : list A) (d : A) : A :=
  if i <? 0 then d else nth (Z.to_nat i) l d.

Definition sumZ (l : list Z) : Z := fold_right Z.add 0 l.

(** [max] of a non-empty array; numpy raises on an empty one. *)
Definition maxZ (l : list Z) : option Z :=
  match l with
  | [] => None
  | x :: l' => Some (fold_left Z.max l' x)
  end.

Definition lenZ {A : Type} (l : list A) : Z := Z.of_nat (List.length l).

Lemma length_mapi_from {A B : Type} (f : Z -> A -> B) (l : list A) (i : Z) :
  List.length (mapi_from i f l) = List.length l.
Proof.
  revert i. induction l as [|x l IH]; intros i; simpl; [reflexivity|].
  now rewrite IH.
Qed.

Lemma nth_error_mapi_from {A B : Type} (f : Z -> A -> B) (l : list A) (i : Z) (n : nat) :
  nth_error (mapi_from i f l) n = option_map (f (i + Z.of_nat n)) (nth_error l n).
Proof.
  revert i n. induction l as [|x l IH]; intros i n.
  - destruct n; reflexivity.
  - destruct n as [|n]; simpl.
    + now rewrite Z.add_0_r.
    + rewrite IH. do 2 f_equal. lia.
Qed.

Lemma nth_error_mapi {A B : Type} (f : Z -> A -> B) (l : list A) (n : nat) :
  nth_error (mapi f l) n = option_map (f (Z.of_nat n)) (nth_error l n).
Proof. unfold mapi. now rewrite nth_error_mapi_from. Qed.

Lemma sumZ_app (l1 l2 : list Z) : sumZ (l1 ++ l2) = sumZ l1 + sumZ l2.
Proof.
  induction l1 as [|x l1 IH]; simpl; [reflexivity|]. rewrite IH. lia.
Qed.

Lemma sumZ_repeat (c : Z) (n : nat) : sumZ (repeat c n) = Z.of_nat n * c.
Proof.
  induction n as [|n IH]; [reflexivity|].
  cbn [repeat sumZ fold_right]. fold (sumZ (repeat c n)). rewrite IH. lia.
Qed.

End Util.

(* ===================================================================== *)
(** ** Output length of the convolutional front end
       (transcribe.py, [_floor_div] and [_get_feat_extract_output_lengths]) *)
(* ===================================================================== *)

Module Lengths.

Local Open Scope Z_scope.

(** Elements of an [mx.int32] array: two's complement wrap-around. *)
Definition int32 (z : Z) : Z := (z + 2 ^ 31) mod 2 ^ 32 - 2 ^ 31.

Definition add32 (a b : Z) : Z := int32 (a + b).
Definition sub32 (a b : Z) : Z := int32 (a - b).
Definition mul32 (a b : Z) : Z := int32 (a * b).

(** [mx.floor(a.astype(mx.float32) / b).astype(mx.int32)].  The quotient is
    taken in the rationals: every dividend the callers pass lies in
    [-1, 98] and the divisor is 2, so the conversion to float32 and the
    float32 division are both exact. *)
Definition _floor_div (a : Z) (b : Z) : Z :=
  int32 (Qfloor (inject_Z a / inject_Z b)).

(** [%] and [//] on non-negative int32 lengths are [Z.modulo] and [Z.div]. *)
Definition _get_feat_extract_output_lengths (input_lengths : Z) : Z :=
  let input_lengths_leave := input_lengths mod 100 in
  let feat_lengths := add32 (_floor_div (sub32 input_lengths_leave 1) 2) 1 in
  let output_lengths :=
    add32
      (add32
         (_floor_div (sub32 (add32 (_floor_div (sub32 feat_lengths 1) 2) 1) 1) 2)
         1)
      (mul32 (int32 (input_lengths / 100)) 13) in
  output_lengths.

(** The formula as the specification words it (one division by two fewer
    than the code performs); kept apart from the definition above. *)
Definition spec_output_length (L : Z) : Z :=
  ((L mod 100 - 1) / 2 + 1 - 1) / 2 + 1 + (L / 100) * 13.

(** The formula the code computes, in exact integer arithmetic. *)
Definition exact_output_length (L : Z) : Z :=
  (((L mod 100 - 1) / 2 + 1 - 1) / 2 + 1 - 1) / 2 + 1 + (L / 100) * 13.

Lemma int32_small (z : Z) : - 2 ^ 31 <= z < 2 ^ 31 -> int32 z = z.
Proof.
  intros H. unfold int32.
  rewrite Z.mod_small by lia. lia.
Qed.

Lemma Qfloor_div (a b : Z) : 0 < b -> Qfloor (inject_Z a / inject_Z b) = a / b.
Proof.
  intros Hb.
  destruct b as [|p|p]; try lia.
  unfold Qdiv, Qinv, inject_Z, Qmult, Qfloor. simpl.
  rewrite Z.mul_1_r. reflexivity.
Qed.

Lemma _floor_div_exact (a b : Z) :
  0 < b -> - 2 ^ 31 <= a < 2 ^ 31 -> _floor_div a b = a / b.
Proof.
  intros Hb Ha. unfold _floor_div.
  rewrite Qfloor_div by assumption.
  apply int32_small.
  split.
  - apply Z.le_trans with (m := (- 2 ^ 31) / b).
    + assert (- 2 ^ 31 <= (- 2 ^ 31) / b); [|lia].
      apply Z.div_le_lower_bound; [lia|]. nia.
    + apply Z.div_le_mono; lia.
  - apply Z.div_lt_upper_bound; [lia|]. nia.
Qed.

Lemma output_lengths_exact (L : Z) :
  0 <= L < 2 ^ 31 -> _get_feat_extract_output_lengths L = exact_output_length L.
Proof.
  intros HL.
  unfold _get_feat_extract_output_lengths, exact_output_length, add32, sub32, mul32.
  pose proof (Z.mod_pos_bound L 100 ltac:(lia)) as Hr.
  assert (Hq : 0 <= L / 100 < 2 ^ 31 / 13).
  { split; [apply Z.div_pos; lia|].
    apply Z.div_lt_upper_bound; [lia|]. change (2 ^ 31 / 13) with 165191049. lia. }
  change (2 ^ 31 / 13) with 165191049 in Hq.
  set (r := L mod 100) in *.
  rewrite (int32_small (r - 1)) by lia.
  rewrite (_floor_div_exact (r - 1) 2) by lia.
  assert (H1 : -1 <= (r - 1) / 2 <= 49).
  { split; [apply Z.div_le_lower_bound; lia|].
    apply Z.lt_succ_r, Z.div_lt_upper_bound; lia. }
  rewrite (int32_small ((r - 1) / 2 + 1)) by lia.
  set (f1 := (r - 1) / 2 + 1) in *.
  rewrite (int32_small (f1 - 1)) by lia.
  rewrite (_floor_div_exact (f1 - 1) 2) by lia.
  assert (H2 : -1 <= (f1 - 1) / 2 <= 24).
  { split; [apply Z.div_le_lower_bound; lia|].
    apply Z.lt_succ_r, Z.div_lt_upper_bound; lia. }
  rewrite (int32_small ((f1 - 1) / 2 + 1)) by lia.
  set (f2 := (f1 - 1) / 2 + 1) in *.
  rewrite (int32_small (f2 - 1)) by lia.
  rewrite (_floor_div_exact (f2 - 1) 2) by lia.
  assert (H3 : -1 <= (f2 - 1) / 2 <= 12).
  { split; [apply Z.div_le_lower_bound; lia|].
    apply Z.lt_succ_r, Z.div_lt_upper_bound; lia. }
  rewrite (int32_small ((f2 - 1) / 2 + 1)) by lia.
  rewrite (int32_small (L / 100)) by lia.
  rewrite (int32_small (L / 100 * 13)) by lia.
  rewrite int32_small by lia.
  reflexivity.
Qed.

Lemma output_lengths_positive (L : Z) :
  1 <= L < 2 ^ 31 -> 1 <= _get_feat_extract_output_lengths L.
Proof.
  intros HL. rewrite output_lengths_exact by lia.
  unfold exact_output_length.
  pose proof (Z.mod_pos_bound L 100 ltac:(lia)) as Hr.
  pose proof (Z.div_mod L 100 ltac:(lia)) as Hdm.
  assert (Hq : 0 <= L / 100) by (apply Z.div_pos; lia).
  destruct (Z.eq_dec (L mod 100) 0) as [E|E].
  - rewrite E. change (((0 - 1) / 2 + 1 - 1) / 2) with (-1).
    change ((-1 + 1 - 1) / 2) with (-1). lia.
  - assert (0 <= (L mod 100 - 1) / 2) by (apply Z.div_pos; lia).
    assert (0 <= ((L mod 100 - 1) / 2 + 1 - 1) / 2) by (apply Z.div_pos; lia).
    assert (0 <= (((L mod 100 - 1) / 2 + 1 - 1) / 2 + 1 - 1) / 2)
      by (apply Z.div_pos; lia).
    lia.
Qed.

(** C1 (as the code has it).  For every int32 feature length [L >= 1] the
    output length is computed in exact integer arithmetic and equals
    [floor((floor((floor(((L mod 100) - 1)/2) + 1 - 1)/2) + 1 - 1)/2) + 1
     + (L div 100) * 13]: three halvings, one per stride-2 convolution.
    Adding 100 frames adds exactly 13, and some length gives a result
    other than [floor(L/8)]. *)
Theorem output_length_three_halvings (L : Z) :
  1 <= L < 2 ^ 31 ->
  _get_feat_extract_output_lengths L
  = (((L mod 100 - 1) / 2 + 1 - 1) / 2 + 1 - 1) / 2 + 1 + (L / 100) * 13
  /\ (L + 100 < 2 ^ 31 ->
      _get_feat_extract_output_lengths (L + 100)
      = _get_feat_extract_output_lengths L + 13)
  /\ (exists L0, 1 <= L0 < 2 ^ 31 /\ _get_feat_extract_output_lengths L0 <> L0 / 8).
Proof.
  intros HL. split; [|split].
  - rewrite output_lengths_exact by lia. reflexivity.
  - intros Hup.
    rewrite !output_lengths_exact by lia.
    unfold exact_output_length.
    replace (L + 100) with (L + 1 * 100) by lia.
    rewrite Z.mod_add by lia.
    rewrite Z.div_add by lia.
    lia.
  - exists 1. split; [lia|]. vm_compute. discriminate.
Qed.

Lemma output_length_three_halvings_witness :
  _get_feat_extract_output_lengths 250
  = (((250 mod 100 - 1) / 2 + 1 - 1) / 2 + 1 - 1) / 2 + 1 + (250 / 100) * 13
  /\ (250 + 100 < 2 ^ 31 ->
      _get_feat_extract_output_lengths (250 + 100)
      = _get_feat_extract_output_lengths 250 + 13)
  /\ (exists L0, 1 <= L0 < 2 ^ 31 /\ _get_feat_extract_output_lengths L0 <> L0 / 8).
Proof.
  apply (output_length_three_halvings 250). lia.
Defined.

(** C1 as the specification words it fails: at [L = 5] the code returns 1,
    the two-halving formula of the claim gives 2. *)
Lemma output_length_spec_formula_fails :
  _get_feat_extract_output_lengths 5 = 1
  /\ spec_output_length 5 = 2
  /\ ~ (forall L, 1 <= L ->
          _get_feat_extract_output_lengths L = spec_output_length L).
Proof.
  split; [vm_compute; reflexivity|].
  split; [vm_compute; reflexivity|].
  intros H. specialize (H 5 ltac:(lia)). vm_compute in H. discriminate.
Qed.

(** The three nested halvings are one ceiling division by 8 of the frames
    left over after the full blocks of 100: the output length is 13 per
    full block plus [ceil((L mod 100) / 8)].  It never decreases with the
    input length and is never below one embedding per 8 frames. *)
Theorem output_length_ceil_form (L L' : Z) :
  0 <= L <= L' -> L' < 2 ^ 31 ->
  _get_feat_extract_output_lengths L = 13 * (L / 100) + (L mod 100 + 7) / 8
  /\ _get_feat_extract_output_lengths L <= _get_feat_extract_output_lengths L'
  /\ L <= 8 * _get_feat_extract_output_lengths L <= L + 7 + 4 * (L / 100).
Proof.
  intros HL HL'.
  assert (Hform : forall x, 0 <= x < 2 ^ 31 ->
             _get_feat_extract_output_lengths x = 13 * (x / 100) + (x mod 100 + 7) / 8).
  { intros x Hx. rewrite output_lengths_exact by lia. unfold exact_output_length.
    set (r := x mod 100).
    replace ((r - 1) / 2 + 1 - 1) with ((r - 1) / 2) by lia.
    replace ((r - 1) / 2 / 2 + 1 - 1) with ((r - 1) / 2 / 2) by lia.
    rewrite !Z.div_div by lia. change (2 * (2 * 2)) with 8.
    replace (r + 7) with (r - 1 + 1 * 8) by lia.
    rewrite Z.div_add by lia. lia. }
  rewrite !Hform by lia.
  pose proof (Z.div_mod L 100 ltac:(lia)) as Hd.
  pose proof (Z.mod_pos_bound L 100 ltac:(lia)) as Hr.
  pose proof (Z.div_mod L' 100 ltac:(lia)) as Hd'.
  pose proof (Z.mod_pos_bound L' 100 ltac:(lia)) as Hr'.
  pose proof (Z.div_mod (L mod 100 + 7) 8 ltac:(lia)) as He.
  pose proof (Z.mod_pos_bound (L mod 100 + 7) 8 ltac:(lia)) as Hre.
  pose proof (Z.div_mod (L' mod 100 + 7) 8 ltac:(lia)) as He'.
  pose proof (Z.mod_pos_bound (L' mod 100 + 7) 8 ltac:(lia)) as Hre'.
  assert (Hq : L / 100 <= L' / 100) by (apply Z.div_le_mono; lia).
  assert (Hq0 : 0 <= L / 100) by (apply Z.div_pos; lia).
  split; [reflexivity|]. split; lia.
Qed.

Lemma output_length_ceil_form_witness :
  _get_feat_extract_output_lengths 1234 = 13 * (1234 / 100) + (1234 mod 100 + 7) / 8
  /\ _get_feat_extract_output_lengths 1234 <= _get_feat_extract_output_lengths 1300
  /\ 1234 <= 8 * _get_feat_extract_output_lengths 1234 <= 1234 + 7 + 4 * (1234 / 100).
Proof.
  apply (output_length_ceil_form 1234 1300); lia.
Defined.


Example output_length_100 : _get_feat_extract_output_lengths 100 = 13.
Proof. vm_compute. reflexivity. Qed.

Example output_length_1600 : _get_feat_extract_output_lengths 1600 = 208.
Proof. vm_compute. reflexivity. Qed.

End Lengths.

(* ===================================================================== *)
(** ** Chunking and block attention of the audio encoder
       (transcribe.py, class [AudioEncoder]) *)
(* ===================================================================== *)

Module Encoder.

Import Util Lengths.
Local Open Scope Z_scope.

(** The two fields of [AudioEncoderConfig] the chunking reads. *)
Record AudioEncoderConfig : Type := {
  n_window : Z;
  n_window_infer : Z
}.

(** The defaults of [AudioEncoderConfig.__init__]. *)
Definition default_config : AudioEncoderConfig :=
  {| n_window := 50; n_window_infer := 800 |}.

(** [range(n)]. *)
Definition range (n : Z) : list Z := map Z.of_nat (seq 0 (Z.to_nat n)).

(** [np.ceil(feature_lens / chunk_size).astype(np.int32)], one element.
    The float64 quotient of two int32 values is close enough to decide the
    ceiling, so the quotient is taken in the rationals. *)
Definition chunk_count (feat_len chunk_size : Z) : Z :=
  int32 (Qceiling (inject_Z feat_len / inject_Z chunk_size)).

(** The body of the inner loop of [_compute_chunk_layout]. *)
Definition chunk_length_at (feat_len chunk_size num_chunks j : Z) : Z :=
  if j =? num_chunks - 1 then
    let remainder := feat_len mod chunk_size in
    if remainder =? 0 then chunk_size else remainder
  else chunk_size.

Definition _compute_chunk_layout (feature_lens : list Z) (chunk_size : Z)
  : list Z * list Z :=
  let chunk_counts := map (fun f => chunk_count f chunk_size) feature_lens in
  let chunk_lengths :=
    flat_map
      (fun '(feat_len, num_chunks) =>
         map (chunk_length_at feat_len chunk_size num_chunks) (range num_chunks))
      (combine feature_lens chunk_counts) in
  (chunk_counts, map int32 chunk_lengths).

(** [_slice_feature_chunks] for one recording: [feat] is the time axis of
    the mel matrix, a chunk is the slice [feat[pos : pos + clen]]. *)
Definition py_slice {A : Type} (l : list A) (lo hi : Z) : list A :=
  skipn (Z.to_nat lo) (firstn (Z.to_nat hi) l).

Fixpoint slice_chunks_loop {A : Type} (feat : list A)
  (chunk_size num_chunks remainder : Z) (js : list Z) (pos : Z) : list (list A) :=
  match js with
  | [] => []
  | j :: js' =>
      let clen :=
        if (j <? num_chunks - 1) || (remainder =? 0) then chunk_size else remainder in
      py_slice feat pos (pos + clen)
        :: slice_chunks_loop feat chunk_size num_chunks remainder js' (pos + clen)
  end.

Definition _slice_feature_chunks {A : Type} (input_features : list (list A))
  (feature_lens chunk_counts : list Z) (chunk_size : Z) : list (list A) :=
  flat_map
    (fun '(feat, (feat_len, num_chunks)) =>
       slice_chunks_loop feat chunk_size num_chunks (feat_len mod chunk_size)
         (range num_chunks) 0)
    (combine input_features (combine feature_lens chunk_counts)).

(** [_pad_chunks]: every chunk is padded with zeros up to the longest one;
    only the lengths matter here. *)
Definition _pad_chunks (chunk_lengths : list Z) : option (list Z * Z) :=
  match maxZ chunk_lengths with
  | None => None
  | Some max_chunk_len =>
      Some (map (fun clen => if clen <? max_chunk_len
                             then clen + (max_chunk_len - clen) else clen)
                chunk_lengths,
            max_chunk_len)
  end.

(** Time length after one [nn.Conv2d(kernel_size=3, stride=2, padding=1)]. *)
Definition conv_out_len (n : Z) : Z := (n + 2 * 1 - 3) / 2 + 1.

(** [l[:n]] on a Python sequence. *)
Definition py_prefix {A : Type} (n : Z) (l : list A) : list A :=
  if n <? 0 then firstn (Z.to_nat (lenZ l + n)) l else firstn (Z.to_nat n) l.

Fixpoint cumsum_from (acc : Z) (l : list Z) : list Z :=
  match l with
  | [] => []
  | x :: l' => (acc + x) :: cumsum_from (acc + x) l'
  end.

(** [np.cumsum(l).tolist()]. *)
Definition cumsum (l : list Z) : list Z := cumsum_from 0 l.

(** What one [cnn_len] appends to [cu_chunk_lens] in [_build_cu_seqlens]. *)
Definition window_widths (cnn_len window_aftercnn : Z) : list Z :=
  let full_windows := cnn_len / window_aftercnn in
  (if full_windows =? 0 then []
   else repeat window_aftercnn (Z.to_nat full_windows))
  ++ (let remainder := cnn_len mod window_aftercnn in
      if remainder =? 0 then [] else [remainder]).

(** [None] is Python's ZeroDivisionError on [cnn_len // 0]. *)
Definition _build_cu_seqlens (aftercnn_lens : list Z) (window_aftercnn : Z)
  : option (list Z) :=
  match aftercnn_lens with
  | [] => Some (cumsum [0])
  | _ :: _ =>
      if window_aftercnn =? 0 then None
      else Some (cumsum (0 :: flat_map (fun n => window_widths n window_aftercnn)
                                       aftercnn_lens))
  end.

(** The additive bias [-1e9] of a masked pair. *)
Definition neg_bias : Z := -1000000000.

(** [mask[start:stop, start:stop] = 0.0] for non-negative bounds. *)
Definition set_block (mask : list (list Z)) (start stop : Z) : list (list Z) :=
  mapi (fun r row =>
          if (start <=? r) && (r <? stop)
          then mapi (fun c v => if (start <=? c) && (c <? stop) then 0 else v) row
          else row)
       mask.

(** [(cu[i], cu[i+1])] for [i] in [range(len(cu) - 1)]. *)
Fixpoint consecutive (cu : list Z) : list (Z * Z) :=
  match cu with
  | [] => []
  | a :: cu' =>
      match cu' with
      | [] => []
      | b :: _ => (a, b) :: consecutive cu'
      end
  end.

Definition _create_block_attention_mask (seq_len : Z) (cu_seqlens : list Z)
  : list (list Z) :=
  let n := Z.to_nat seq_len in
  fold_left (fun mask '(start, stop) => set_block mask start stop)
            (consecutive cu_seqlens)
            (repeat (repeat neg_bias n) n).

(** The length bookkeeping of [AudioEncoder.__call__] up to the
    concatenation of [hidden_list].  A row of [hidden_states] is named by
    the chunk it comes from and its time index in that chunk's convolution
    output.  [None] stands for the exception numpy raises on the [max] of
    an empty array (no chunk at all, or a zero chunk size). *)
Record ChunkStage : Type := {
  chunk_lengths : list Z;
  padded_lengths : list Z;
  feature_lens_after_cnn : list Z;
  max_len_after_cnn : Z;
  conv_time : Z;
  hidden_rows : list (Z * Z)
}.

Definition encoder_chunks (cfg : AudioEncoderConfig) (feature_lens : list Z)
  : option ChunkStage :=
  let chunk_size := n_window cfg * 2 in
  if chunk_size =? 0 then None else
  let '(chunk_counts, chunk_lengths) :=
    _compute_chunk_layout feature_lens chunk_size in
  match _pad_chunks chunk_lengths with
  | None => None
  | Some (padded, max_chunk_len) =>
      let feature_lens_after_cnn :=
        map _get_feat_extract_output_lengths chunk_lengths in
      match maxZ feature_lens_after_cnn with
      | None => None
      | Some max_len_after_cnn =>
          let t := conv_out_len (conv_out_len (conv_out_len max_chunk_len)) in
          let hidden_list :=
            mapi (fun i n => py_prefix n (map (fun k => (i, k)) (range t)))
                 feature_lens_after_cnn in
          Some {| chunk_lengths := chunk_lengths;
                  padded_lengths := padded;
                  feature_lens_after_cnn := feature_lens_after_cnn;
                  max_len_after_cnn := max_len_after_cnn;
                  conv_time := t;
                  hidden_rows := concat hidden_list |}
      end
  end.

(** The rest of the bookkeeping: the attention windows and the mask. *)
Record Layout : Type := {
  stage : ChunkStage;
  window_aftercnn : Z;
  cu_seqlens : list Z;
  attention_mask : list (list Z)
}.

Definition encoder_layout (cfg : AudioEncoderConfig) (feature_lens : list Z)
  : option Layout :=
  let aftercnn_lens := map _get_feat_extract_output_lengths feature_lens in
  match encoder_chunks cfg feature_lens with
  | None => None
  | Some st =>
      let window_aftercnn :=
        max_len_after_cnn st * (n_window_infer cfg / (n_window cfg * 2)) in
      match _build_cu_seqlens aftercnn_lens window_aftercnn with
      | None => None
      | Some cu =>
          Some {| stage := st;
                  window_aftercnn := window_aftercnn;
                  cu_seqlens := cu;
                  attention_mask :=
                    _create_block_attention_mask (lenZ (hidden_rows st)) cu |}
      end
  end.

(** [mask[q, k]]. *)
Definition mask_at (mask : list (list Z)) (q k : Z) : option Z :=
  match nth_error mask (Z.to_nat q) with
  | Some row => nth_error row (Z.to_nat k)
  | None => None
  end.

(** *** Notions the statements below are written with *)

(** Both positions lie in the block [start, stop). *)
Definition in_block (start stop q k : Z) : bool :=
  (start <=? q) && (q <? stop) && ((start <=? k) && (k <? stop)).

(** The blocks cut by the running sums of a list of widths. *)
Fixpoint blocks_from (acc : Z) (widths : list Z) : list (Z * Z) :=
  match widths with
  | [] => []
  | x :: widths' => (acc, acc + x) :: blocks_from (acc + x) widths'
  end.

(** The chunk a row of [hidden_states] was cut from. *)
Definition chunk_of (lay : Layout) (q : Z) : option Z :=
  option_map fst (nth_error (hidden_rows (stage lay)) (Z.to_nat q)).

(** C3 as the specification words it: any two rows cut from different
    chunks carry the bias [-1e9]. *)
Definition masks_across_chunks (cfg : AudioEncoderConfig) (f : Z) : Prop :=
  forall lay q k cq ck,
    encoder_layout cfg [f] = Some lay ->
    0 <= q -> 0 <= k ->
    chunk_of lay q = Some cq -> chunk_of lay k = Some ck -> cq <> ck ->
    mask_at (attention_mask lay) q k = Some neg_bias.

(** Consecutive slices of the given widths, from position [pos] on. *)
Fixpoint slices_from {A : Type} (feat : list A) (pos : Z) (widths : list Z)
  : list (list A) :=
  match widths with
  | [] => []
  | w :: widths' => py_slice feat pos (pos + w) :: slices_from feat (pos + w) widths'
  end.

(** *** Chunk layout *)

(** The length formula is used through its lemmas from here on. *)
Opaque _get_feat_extract_output_lengths.

Lemma Qceiling_div (a b : Z) :
  0 < b -> Qceiling (inject_Z a / inject_Z b) = - ((- a) / b).
Proof.
  intros Hb.
  destruct b as [|p|p]; try lia.
  unfold Qceiling, Qdiv, Qinv, inject_Z, Qmult, Qopp, Qfloor. simpl.
  rewrite Z.mul_1_r. reflexivity.
Qed.

Lemma ceil_div_cases (f c : Z) :
  1 <= f -> 1 <= c ->
  let n := - ((- f) / c) in
  1 <= n <= f
  /\ (n - 1) * c + (if f mod c =? 0 then c else f mod c) = f.
Proof.
  intros Hf Hc n.
  pose proof (Z.div_mod f c ltac:(lia)) as Hdm.
  pose proof (Z.mod_pos_bound f c ltac:(lia)) as Hr.
  assert (Hq : 0 <= f / c) by (apply Z.div_pos; lia).
  destruct (Z.eqb_spec (f mod c) 0) as [E|E].
  - assert (Hn : n = f / c).
    { unfold n. rewrite Z.div_opp_l_z by (assumption || lia). lia. }
    rewrite Hn. nia.
  - assert (Hn : n = f / c + 1).
    { unfold n. rewrite Z.div_opp_l_nz by (assumption || lia). lia. }
    rewrite Hn. nia.
Qed.

Lemma chunk_count_ceil (f c : Z) :
  1 <= f < 2 ^ 31 -> 1 <= c -> chunk_count f c = - ((- f) / c).
Proof.
  intros Hf Hc. unfold chunk_count.
  rewrite Qceiling_div by lia.
  pose proof (ceil_div_cases f c ltac:(lia) Hc) as [Hn _].
  apply int32_small. lia.
Qed.

Lemma range_succ (n : Z) : 1 <= n -> range n = range (n - 1) ++ [n - 1].
Proof.
  intros Hn. unfold range.
  replace (Z.to_nat n) with (Z.to_nat (n - 1) + 1)%nat by lia.
  rewrite seq_app, map_app. simpl. do 2 f_equal. lia.
Qed.

Lemma in_range (n j : Z) : In j (range n) <-> 0 <= j < n.
Proof.
  unfold range. rewrite in_map_iff. split.
  - intros (k & <- & Hk). apply in_seq in Hk. lia.
  - intros Hj. exists (Z.to_nat j). split; [lia|]. apply in_seq. lia.
Qed.

Lemma length_range (n : Z) : List.length (range n) = Z.to_nat n.
Proof. unfold range. now rewrite length_map, length_seq. Qed.

Lemma nth_error_range (n : Z) (p : nat) :
  (p < Z.to_nat n)%nat -> nth_error (range n) p = Some (Z.of_nat p).
Proof.
  intros Hp. unfold range.
  rewrite nth_error_map, nth_error_seq.
  destruct (Nat.ltb_spec p (Z.to_nat n)); [reflexivity|lia].
Qed.

Lemma map_const_repeat {A B : Type} (f : A -> B) (b : B) (l : list A) :
  (forall x, In x l -> f x = b) -> map f l = repeat b (List.length l).
Proof.
  induction l as [|x l IH]; intros H; simpl; [reflexivity|].
  rewrite (H x) by now left. f_equal. apply IH. intros y Hy. apply H. now right.
Qed.

(** The chunk lengths of one recording, in closed form. *)
Lemma chunk_lengths_single (f c : Z) :
  1 <= f < 2 ^ 31 -> 1 <= c ->
  _compute_chunk_layout [f] c
  = ([- ((- f) / c)],
     repeat c (Z.to_nat (- ((- f) / c) - 1))
       ++ [if f mod c =? 0 then c else f mod c]).
Proof.
  intros Hf Hc.
  pose proof (ceil_div_cases f c ltac:(lia) Hc) as [Hn Hsum].
  pose proof (Z.mod_pos_bound f c ltac:(lia)) as Hr.
  unfold _compute_chunk_layout. cbn [map combine flat_map].
  rewrite chunk_count_ceil by assumption.
  set (n := - ((- f) / c)) in *.
  rewrite app_nil_r. f_equal.
  rewrite range_succ by lia.
  rewrite !map_app. cbn [map]. f_equal.
  - rewrite map_map, (map_const_repeat _ c).
    + now rewrite length_range.
    + intros j Hj. apply in_range in Hj. unfold chunk_length_at.
      destruct (Z.eqb_spec j (n - 1)); [lia|].
      apply int32_small.
      assert (c <= (n - 1) * c) by nia.
      destruct (f mod c =? 0); lia.
  - unfold chunk_length_at. rewrite Z.eqb_refl.
    cbv zeta. f_equal. apply int32_small.
    destruct (f mod c =? 0); nia.
Qed.

Lemma fold_left_max_spec (l : list Z) (x : Z) :
  let m := fold_left Z.max l x in
  (m = x \/ In m l) /\ x <= m /\ (forall y, In y l -> y <= m).
Proof.
  revert x. induction l as [|a l IH]; intros x; simpl.
  - split; [now left|]. split; [lia|]. intros y [].
  - destruct (IH (Z.max x a)) as (Hin & Hle & Hall).
    split; [|split].
    + destruct Hin as [E|Hin]; [|now right; right].
      destruct (Z.max_spec x a) as [[_ E']|[_ E']]; [right; left|left]; lia.
    + lia.
    + intros y [<-|Hy]; [lia|]. now apply Hall.
Qed.

Lemma maxZ_spec (l : list Z) (m : Z) :
  maxZ l = Some m -> In m l /\ (forall y, In y l -> y <= m).
Proof.
  destruct l as [|x l]; [discriminate|]. simpl. intros [= <-].
  destruct (fold_left_max_spec l x) as (Hin & Hle & Hall).
  split.
  - destruct Hin as [E|Hin]; [left; now symmetry|now right].
  - intros y [<-|Hy]; [exact Hle|now apply Hall].
Qed.

Lemma maxZ_some (l : list Z) : l <> [] -> exists m, maxZ l = Some m.
Proof. destruct l; [congruence|]. intros _. simpl. eauto. Qed.

Lemma maxZ_repeat_last (c last : Z) (m : nat) :
  1 <= last <= c ->
  maxZ (repeat c m ++ [last]) = Some (if Nat.eqb m 0 then last else c).
Proof.
  intros Hl.
  destruct (maxZ_some (repeat c m ++ [last])) as [x Hx].
  { destruct m; discriminate. }
  rewrite Hx. f_equal.
  destruct (maxZ_spec _ _ Hx) as [Hin Hall].
  destruct m as [|m]; simpl in *.
  - destruct Hin as [E|[]]. now symmetry.
  - assert (c <= x) by (apply Hall; now left).
    destruct Hin as [E|Hin]; [now symmetry|].
    apply in_app_or in Hin. destruct Hin as [Hin|[E|[]]].
    + now apply repeat_spec in Hin.
    + lia.
Qed.

Lemma in_firstn_nth_error {A : Type} (n : nat) (l : list A) (y : A) :
  In y (firstn n l) <-> exists p, (p < n)%nat /\ nth_error l p = Some y.
Proof.
  revert l. induction n as [|n IH]; intros l.
  - simpl. split; [tauto|]. intros (p & Hp & _). lia.
  - destruct l as [|x l].
    + simpl. split; [tauto|]. intros (p & _ & Hp). destruct p; discriminate.
    + simpl. rewrite IH. split.
      * intros [<-|(p & Hp & Hn)].
        -- exists 0%nat. split; [lia|reflexivity].
        -- exists (S p). split; [lia|exact Hn].
      * intros (p & Hp & Hn). destruct p as [|p].
        -- left. simpl in Hn. congruence.
        -- right. exists p. split; [lia|exact Hn].
Qed.

(** Membership in the rows kept of one chunk: [x[i, :n]] with [t] time
    steps available. *)
Lemma in_kept_rows (i n t k1 k2 : Z) :
  0 <= n ->
  In (k1, k2) (py_prefix n (map (fun k => (i, k)) (range t)))
  <-> k1 = i /\ 0 <= k2 < n /\ k2 < t.
Proof.
  intros Hn. unfold py_prefix.
  destruct (Z.ltb_spec n 0); [lia|].
  rewrite in_firstn_nth_error. split.
  - intros (p & Hp & Hnth).
    rewrite nth_error_map in Hnth.
    destruct (nth_error (range t) p) as [k|] eqn:E; [|discriminate].
    assert (Hlt : (p < Z.to_nat t)%nat).
    { rewrite <- length_range. apply nth_error_Some. congruence. }
    rewrite nth_error_range in E by assumption.
    injection E as <-. injection Hnth as <- <-. lia.
  - intros (-> & Hk & Ht).
    exists (Z.to_nat k2). split; [lia|].
    rewrite nth_error_map, nth_error_range by lia.
    simpl. do 2 f_equal. lia.
Qed.

Lemma in_mapi_from_iff {A B : Type} (f : Z -> A -> B) (l : list A) (i : Z) (y : B) :
  In y (mapi_from i f l) <->
  exists (j : nat) (x : A), nth_error l j = Some x /\ y = f (i + Z.of_nat j) x.
Proof.
  split.
  - intros Hin. apply In_nth_error in Hin. destruct Hin as [j Hj].
    rewrite nth_error_mapi_from in Hj.
    destruct (nth_error l j) as [x|] eqn:E; [|discriminate].
    exists j, x. split; [exact E|]. simpl in Hj. congruence.
  - intros (j & x & Hj & ->).
    apply nth_error_In with (n := j).
    now rewrite nth_error_mapi_from, Hj.
Qed.

Lemma in_hidden_rows (lens : list Z) (t k1 k2 : Z) :
  Forall (fun n => 0 <= n) lens ->
  In (k1, k2)
     (concat (mapi (fun i n => py_prefix n (map (fun k => (i, k)) (range t))) lens))
  <-> 0 <= k1 < lenZ lens /\ 0 <= k2 < nthZ k1 lens 0 /\ k2 < t.
Proof.
  intros Hpos. rewrite in_concat. unfold mapi. split.
  - intros (rows & Hrows & Hin).
    apply in_mapi_from_iff in Hrows. destruct Hrows as (j & n & Hj & ->).
    assert (Hn : 0 <= n).
    { rewrite Forall_forall in Hpos. apply Hpos. eapply nth_error_In; eassumption. }
    apply in_kept_rows in Hin; [|assumption].
    destruct Hin as (-> & Hk & Ht).
    assert (Hlen : (j < List.length lens)%nat) by (apply nth_error_Some; congruence).
    unfold lenZ, nthZ. simpl.
    destruct (Z.ltb_spec (Z.of_nat j) 0); [lia|].
    rewrite Nat2Z.id.
    rewrite (nth_error_nth _ _ _ Hj). lia.
  - intros (Hk1 & Hk2 & Ht).
    unfold lenZ, nthZ in *.
    destruct (Z.ltb_spec k1 0); [lia|].
    destruct (nth_error lens (Z.to_nat k1)) as [n|] eqn:E.
    2:{ apply nth_error_None in E. lia. }
    rewrite (nth_error_nth _ _ _ E) in Hk2.
    exists (py_prefix n (map (fun k => (k1, k)) (range t))). split.
    + apply in_mapi_from_iff. exists (Z.to_nat k1), n. split; [exact E|].
      replace (0 + Z.of_nat (Z.to_nat k1)) with k1 by lia. reflexivity.
    + apply in_kept_rows; [lia|]. lia.
Qed.

Lemma chunk_lengths_facts (f c : Z) :
  1 <= f < 2 ^ 31 -> 1 <= c ->
  let lens := snd (_compute_chunk_layout [f] c) in
  let last := if f mod c =? 0 then c else f mod c in
  let n := - ((- f) / c) in
  _compute_chunk_layout [f] c = ([n], lens)
  /\ lens = repeat c (Z.to_nat (n - 1)) ++ [last]
  /\ 1 <= last <= c
  /\ 1 <= n
  /\ (n - 1) * c + last = f
  /\ (forall x, In x lens -> 1 <= x <= c /\ x <= f)
  /\ maxZ lens = Some (Z.min f c).
Proof.
  intros Hf Hc lens last n.
  pose proof (ceil_div_cases f c ltac:(lia) Hc) as [Hn Hsum].
  pose proof (Z.mod_pos_bound f c ltac:(lia)) as Hr.
  pose proof (chunk_lengths_single f c Hf Hc) as Hlay.
  fold n in Hn, Hsum, Hlay. fold last in Hsum, Hlay.
  assert (Hlast : 1 <= last <= c)
    by (unfold last; destruct (Z.eqb_spec (f mod c) 0); lia).
  assert (Hlens : lens = repeat c (Z.to_nat (n - 1)) ++ [last]).
  { unfold lens. now rewrite Hlay. }
  split; [now rewrite Hlay, Hlens|].
  split; [exact Hlens|]. split; [exact Hlast|]. split; [lia|].
  split; [exact Hsum|]. split.
  - rewrite Hlens. intros x Hx. apply in_app_or in Hx.
    destruct Hx as [Hx|[<-|[]]].
    + assert (Hm : (0 < Z.to_nat (n - 1))%nat).
      { destruct (Z.to_nat (n - 1)); [destruct Hx|lia]. }
      apply repeat_spec in Hx. subst x. nia.
    + nia.
  - rewrite Hlens, maxZ_repeat_last by exact Hlast. f_equal.
    destruct (Nat.eqb_spec (Z.to_nat (n - 1)) 0) as [E|E].
    + replace (n - 1) with 0 in Hsum by lia. lia.
    + assert (c <= (n - 1) * c) by nia. lia.
Qed.

(** The chunk stage of the encoder on one recording. *)
Lemma encoder_chunks_single (cfg : AudioEncoderConfig) (f : Z) :
  1 <= f < 2 ^ 31 -> 1 <= n_window cfg ->
  let c := n_window cfg * 2 in
  let lens := snd (_compute_chunk_layout [f] c) in
  let outs := map _get_feat_extract_output_lengths lens in
  let t := conv_out_len (conv_out_len (conv_out_len (Z.min f c))) in
  exists mx,
    maxZ outs = Some mx
    /\ encoder_chunks cfg [f]
       = Some {| chunk_lengths := lens;
                 padded_lengths := map (fun _ => Z.min f c) lens;
                 feature_lens_after_cnn := outs;
                 max_len_after_cnn := mx;
                 conv_time := t;
                 hidden_rows :=
                   concat (mapi (fun i n => py_prefix n (map (fun k => (i, k)) (range t)))
                                outs) |}.
Proof.
  intros Hf Hn c lens outs t.
  destruct (chunk_lengths_facts f c Hf ltac:(lia))
    as (Hlay & Hlens & Hlast & _ & _ & Hbound & Hmax).
  fold lens in Hlay, Hlens, Hbound, Hmax.
  destruct (maxZ_some outs) as [mx Hmx].
  { unfold outs. rewrite Hlens. destruct (Z.to_nat _); discriminate. }
  exists mx. split; [exact Hmx|].
  unfold encoder_chunks. fold c.
  destruct (Z.eqb_spec c 0); [lia|].
  rewrite Hlay. unfold _pad_chunks. rewrite Hmax. fold outs. rewrite Hmx.
  do 2 f_equal.
  apply map_ext_in. intros x Hx.
  destruct (maxZ_spec _ _ Hmax) as [_ Hle]. specialize (Hle x Hx).
  destruct (Z.ltb_spec x (Z.min f c)); lia.
Qed.

Lemma output_lengths_nth (lens : list Z) (i : Z) :
  nthZ i (map _get_feat_extract_output_lengths lens) 0
  = if i <? 0 then 0 else _get_feat_extract_output_lengths (nth (Z.to_nat i) lens 0).
Proof.
  unfold nthZ. destruct (i <? 0); [reflexivity|].
  rewrite <- (map_nth _get_feat_extract_output_lengths). reflexivity.
Qed.

(** C9.  For every int32 feature length [f >= 1] and chunk size [c >= 1]
    the chunk lengths partition [f]: all chunks but the last have length
    [c], the last has length [f mod c] when that is nonzero and [c]
    otherwise, every length lies in [1, c] and the lengths sum to [f].
    In the encoder (chunk size [2 * n_window]) every chunk is padded to the
    longest chunk, the output-length formula is applied to the true chunk
    lengths, and the rows kept of chunk [i] are exactly the time steps
    below the output length of its true length: the padded tail is dropped
    before [hidden_states] reaches the attention layers. *)
Theorem chunk_layout_partition (f c : Z) :
  1 <= f < 2 ^ 31 -> 1 <= c ->
  let lens := snd (_compute_chunk_layout [f] c) in
  let last := if f mod c =? 0 then c else f mod c in
  (exists m : nat,
      fst (_compute_chunk_layout [f] c) = [Z.of_nat m + 1]
      /\ lens = repeat c m ++ [last])
  /\ Forall (fun x => 1 <= x <= c) lens
  /\ sumZ lens = f
  /\ (forall cfg : AudioEncoderConfig,
        n_window cfg * 2 = c ->
        exists st,
          encoder_chunks cfg [f] = Some st
          /\ chunk_lengths st = lens
          /\ padded_lengths st = map (fun _ => Z.min f c) lens
          /\ feature_lens_after_cnn st
             = map _get_feat_extract_output_lengths lens
          /\ (forall i t,
                In (i, t) (hidden_rows st)
                <-> 0 <= i < lenZ lens
                    /\ 0 <= t < _get_feat_extract_output_lengths (nthZ i lens 0)
                    /\ t < conv_time st)).
Proof.
  intros Hf Hc lens last.
  destruct (chunk_lengths_facts f c Hf Hc)
    as (Hlay & Hlens & Hlast & Hn & Hsum & Hbound & Hmax).
  fold lens in Hlay, Hlens, Hbound, Hmax. fold last in Hlens, Hlast, Hsum.
  set (n := - ((- f) / c)) in *.
  split; [|split; [|split]].
  - exists (Z.to_nat (n - 1)). split; [|exact Hlens].
    rewrite Hlay. simpl. f_equal. lia.
  - apply Forall_forall. intros x Hx. now apply Hbound.
  - rewrite Hlens, sumZ_app, sumZ_repeat, Z2Nat.id by lia.
    cbn [sumZ fold_right]. lia.
  - intros cfg Hcfg.
    destruct (encoder_chunks_single cfg f Hf ltac:(lia)) as (mx & Hmx & Hst).
    rewrite Hcfg in Hst. fold lens in Hst.
    eexists. split; [exact Hst|].
    cbn [chunk_lengths padded_lengths feature_lens_after_cnn hidden_rows conv_time].
    split; [reflexivity|]. split; [reflexivity|]. split; [reflexivity|].
    intros i t. rewrite in_hidden_rows.
    + unfold lenZ. rewrite length_map, output_lengths_nth.
      unfold nthZ.
      split; intros (Hi & Ht & Hc3); (split; [exact Hi|split; [|exact Hc3]]);
        destruct (Z.ltb_spec i 0); solve [lia | exact Ht].
    + apply Forall_forall. intros y Hy. apply in_map_iff in Hy.
      destruct Hy as (x & <- & Hx).
      destruct (Hbound x Hx) as [Hx1 Hx2].
      pose proof (output_lengths_positive x ltac:(lia)). lia.
Qed.

Lemma chunk_layout_partition_witness :
  sumZ (snd (_compute_chunk_layout [250] 100)) = 250
  /\ exists st,
       encoder_chunks default_config [250] = Some st
       /\ chunk_lengths st = snd (_compute_chunk_layout [250] 100)
       /\ feature_lens_after_cnn st
          = map _get_feat_extract_output_lengths (snd (_compute_chunk_layout [250] 100)).
Proof.
  destruct (chunk_layout_partition 250 100) as (_ & _ & Hsum & Henc); [lia|lia|].
  split; [exact Hsum|].
  destruct (Henc default_config eq_refl) as (st & H1 & H2 & _ & H3 & _).
  exists st. split; [exact H1|]. split; [exact H2|exact H3].
Defined.

(** *** The block attention mask *)

Lemma mask_at_set_block (mask : list (list Z)) (start stop q k : Z) :
  0 <= q -> 0 <= k ->
  mask_at (set_block mask start stop) q k
  = option_map (fun v => if in_block start stop q k then 0 else v)
               (mask_at mask q k).
Proof.
  intros Hq Hk. unfold mask_at, set_block, in_block.
  rewrite nth_error_mapi, Z2Nat.id by lia.
  destruct (nth_error mask (Z.to_nat q)) as [row|]; [|reflexivity].
  simpl.
  destruct ((start <=? q) && (q <? stop)).
  - rewrite nth_error_mapi, Z2Nat.id by lia. reflexivity.
  - simpl. now destruct (nth_error row (Z.to_nat k)).
Qed.

Lemma mask_at_blocks (blocks : list (Z * Z)) (mask : list (list Z)) (q k : Z) :
  0 <= q -> 0 <= k ->
  mask_at (fold_left (fun m '(start, stop) => set_block m start stop) blocks mask) q k
  = option_map
      (fun v => if existsb (fun '(start, stop) => in_block start stop q k) blocks
                then 0 else v)
      (mask_at mask q k).
Proof.
  intros Hq Hk. revert mask.
  induction blocks as [|[s e] blocks IH]; intros mask; simpl.
  - now destruct (mask_at mask q k).
  - rewrite IH, mask_at_set_block by assumption.
    destruct (mask_at mask q k) as [v|]; [|reflexivity]. simpl.
    destruct (in_block s e q k); simpl; [|reflexivity].
    now destruct (existsb _ blocks).
Qed.

Lemma mask_at_full (n q k : Z) :
  0 <= q < n -> 0 <= k < n ->
  mask_at (repeat (repeat neg_bias (Z.to_nat n)) (Z.to_nat n)) q k = Some neg_bias.
Proof.
  intros Hq Hk. unfold mask_at.
  rewrite nth_error_repeat by lia.
  now rewrite nth_error_repeat by lia.
Qed.

Lemma consecutive_cumsum (acc : Z) (widths : list Z) :
  consecutive (acc :: cumsum_from acc widths) = blocks_from acc widths.
Proof.
  revert acc. induction widths as [|x widths IH]; intros acc; [reflexivity|].
  cbn [cumsum_from blocks_from]. rewrite <- IH. reflexivity.
Qed.

(** The mask in closed form: zero exactly inside a block of [cu_seqlens]. *)
Lemma mask_at_create (seq_len : Z) (widths : list Z) (q k : Z) :
  0 <= q < seq_len -> 0 <= k < seq_len ->
  mask_at (_create_block_attention_mask seq_len (cumsum (0 :: widths))) q k
  = Some (if existsb (fun '(start, stop) => in_block start stop q k)
                     (blocks_from 0 widths)
          then 0 else neg_bias).
Proof.
  intros Hq Hk. unfold _create_block_attention_mask, cumsum.
  cbn [cumsum_from]. rewrite consecutive_cumsum.
  rewrite mask_at_blocks, mask_at_full by lia. reflexivity.
Qed.

Lemma in_blocks_repeat (w : Z) (n : nat) (tl : list Z) (acc s e : Z) :
  In (s, e) (blocks_from acc (repeat w n ++ tl))
  <-> (exists i : nat, (i < n)%nat /\ s = acc + Z.of_nat i * w /\ e = s + w)
      \/ In (s, e) (blocks_from (acc + Z.of_nat n * w) tl).
Proof.
  revert acc. induction n as [|n IH]; intros acc.
  - simpl. replace (acc + 0) with acc by lia. split; [now right|].
    intros [(i & Hi & _)|H]; [lia|exact H].
  - cbn [repeat app blocks_from In]. rewrite IH. split.
    + intros [E|[(i & Hi & -> & ->)|H]].
      * injection E as <- <-. left. exists 0%nat. split; [lia|]. split; lia.
      * left. exists (S i). split; [lia|]. split; lia.
      * right. replace (acc + Z.of_nat (S n) * w) with (acc + w + Z.of_nat n * w) by lia.
        exact H.
    + intros [(i & Hi & -> & ->)|H].
      * destruct i as [|i].
        -- left. f_equal; lia.
        -- right. left. exists i. split; [lia|]. split; lia.
      * right. right.
        replace (acc + w + Z.of_nat n * w) with (acc + Z.of_nat (S n) * w) by lia.
        exact H.
Qed.

(** The blocks of one recording are the windows of width [w]: two
    positions share a block when they are below [total] and have the same
    quotient by [w]. *)
Lemma same_window_iff (total w q k : Z) :
  0 <= total -> 0 < w -> 0 <= q -> 0 <= k ->
  existsb (fun '(start, stop) => in_block start stop q k)
          (blocks_from 0 (window_widths total w))
  = (q <? total) && (k <? total) && (q / w =? k / w).
Proof.
  intros Htot Hw Hq Hk.
  pose proof (Z.div_mod total w ltac:(lia)) as Hdm.
  pose proof (Z.mod_pos_bound total w Hw) as Hr.
  assert (Hn : 0 <= total / w) by (apply Z.div_pos; lia).
  pose proof (Z.div_mod q w ltac:(lia)) as Hdq.
  pose proof (Z.mod_pos_bound q w Hw) as Hrq.
  pose proof (Z.div_mod k w ltac:(lia)) as Hdk.
  pose proof (Z.mod_pos_bound k w Hw) as Hrk.
  assert (Hwid : window_widths total w
                 = repeat w (Z.to_nat (total / w))
                     ++ (if total mod w =? 0 then [] else [total mod w])).
  { unfold window_widths. destruct (Z.eqb_spec (total / w) 0) as [E|E]; [|reflexivity].
    rewrite E. reflexivity. }
  apply eq_true_iff_eq. rewrite existsb_exists, !andb_true_iff.
  rewrite !Z.ltb_lt, Z.eqb_eq. rewrite Hwid. split.
  - intros ([s e] & Hin & Hb).
    unfold in_block in Hb. rewrite !andb_true_iff in Hb.
    rewrite !Z.leb_le, !Z.ltb_lt in Hb.
    apply in_blocks_repeat in Hin.
    rewrite Z2Nat.id in Hin by lia.
    destruct Hin as [(i & Hi & -> & ->)|Hin].
    + assert (Z.of_nat i < total / w) by lia.
      assert (q / w = Z.of_nat i) by (symmetry; apply (Z.div_unique_pos q w _ (q - Z.of_nat i * w)); lia).
      assert (k / w = Z.of_nat i) by (symmetry; apply (Z.div_unique_pos k w _ (k - Z.of_nat i * w)); lia).
      split; [split|]; nia.
    + destruct (Z.eqb_spec (total mod w) 0) as [E|E]; [destruct Hin|].
      destruct Hin as [E'|[]]. injection E' as <- <-.
      assert (q / w = total / w)
        by (symmetry; apply (Z.div_unique_pos q w _ (q - total / w * w)); lia).
      assert (k / w = total / w)
        by (symmetry; apply (Z.div_unique_pos k w _ (k - total / w * w)); lia).
      split; [split|]; lia.
  - intros [[Hqt Hkt] Heq].
    assert (Hle : q / w <= total / w) by (apply Z.div_le_mono; lia).
    destruct (Z.eq_dec (q / w) (total / w)) as [E|E].
    + destruct (Z.eqb_spec (total mod w) 0) as [E0|E0]; [nia|].
      exists (total / w * w, total / w * w + total mod w). split.
      * apply in_blocks_repeat. right. rewrite Z2Nat.id by lia. now left.
      * unfold in_block. rewrite !andb_true_iff, !Z.leb_le, !Z.ltb_lt. nia.
    + exists (Z.of_nat (Z.to_nat (q / w)) * w, Z.of_nat (Z.to_nat (q / w)) * w + w).
      assert (0 <= q / w) by (apply Z.div_pos; lia).
      split.
      * apply in_blocks_repeat. left. exists (Z.to_nat (q / w)).
        split; [lia|]. split; lia.
      * unfold in_block. rewrite !andb_true_iff, !Z.leb_le, !Z.ltb_lt.
        rewrite Z2Nat.id by lia. nia.
Qed.

Lemma encoder_layout_single (cfg : AudioEncoderConfig) (f : Z) :
  1 <= f < 2 ^ 31 -> 1 <= n_window cfg ->
  n_window cfg * 2 <= n_window_infer cfg ->
  exists st w,
    encoder_chunks cfg [f] = Some st
    /\ w = max_len_after_cnn st * (n_window_infer cfg / (n_window cfg * 2))
    /\ 1 <= max_len_after_cnn st <= w
    /\ (f <= n_window cfg * 2 ->
        chunk_lengths st = [f] /\ padded_lengths st = [f]
        /\ max_len_after_cnn st = _get_feat_extract_output_lengths f
        /\ lenZ (hidden_rows st) <= _get_feat_extract_output_lengths f)
    /\ encoder_layout cfg [f]
       = Some {| stage := st;
                 window_aftercnn := w;
                 cu_seqlens :=
                   cumsum (0 :: window_widths (_get_feat_extract_output_lengths f) w);
                 attention_mask :=
                   _create_block_attention_mask
                     (lenZ (hidden_rows st))
                     (cumsum (0 :: window_widths (_get_feat_extract_output_lengths f) w)) |}.
Proof.
  intros Hf Hn Hinfer.
  destruct (encoder_chunks_single cfg f Hf Hn) as (mx & Hmx & Hst).
  destruct (chunk_lengths_facts f (n_window cfg * 2) Hf ltac:(lia))
    as (_ & Hlens & Hlast & Hn1 & Hsum & Hbound & _).
  set (c := n_window cfg * 2) in *.
  set (lens := snd (_compute_chunk_layout [f] c)) in *.
  assert (Hmx1 : 1 <= mx).
  { destruct (maxZ_spec _ _ Hmx) as [Hin _].
    apply in_map_iff in Hin. destruct Hin as (x & <- & Hx).
    destruct (Hbound x Hx). apply output_lengths_positive. lia. }
  assert (Hratio : 1 <= n_window_infer cfg / c)
    by (apply Z.div_le_lower_bound; lia).
  eexists. exists (mx * (n_window_infer cfg / c)).
  split; [exact Hst|]. cbn [max_len_after_cnn chunk_lengths padded_lengths hidden_rows].
  split; [reflexivity|]. split; [nia|]. split.
  - intros Hone.
    assert (Hl : lens = [f]).
    { rewrite Hlens. replace (- (- f / c) - 1) with 0 in * by nia.
      cbn [Z.to_nat repeat app]. f_equal. lia. }
    clearbody lens. subst lens.
    rewrite Hl in Hmx |- *.
    cbn [map maxZ fold_left] in Hmx. injection Hmx as <-.
    cbn [map]. split; [reflexivity|]. split; [f_equal; lia|].
    split; [reflexivity|].
    unfold mapi. cbn [mapi_from concat]. rewrite app_nil_r.
    pose proof (output_lengths_positive f Hf) as Hpos.
    unfold lenZ, py_prefix.
    destruct (Z.ltb_spec (_get_feat_extract_output_lengths f) 0); [lia|].
    rewrite length_firstn. lia.
  - unfold encoder_layout. rewrite Hst.
    cbn [max_len_after_cnn hidden_rows map]. fold c.
    unfold _build_cu_seqlens.
    destruct (Z.eqb_spec (mx * (n_window_infer cfg / c)) 0); [nia|].
    cbn [flat_map]. rewrite app_nil_r. reflexivity.
Qed.

(** C3 (as the code has it).  The block attention mask is cut along
    attention windows, not chunks.  For one recording of int32 length
    [f >= 1], with [n_window >= 1] and [n_window_infer >= 2 * n_window],
    the window width is the longest per-chunk output length times
    [n_window_infer // (2 * n_window)] chunks; the mask carries [0] for two
    rows in the same window and the bias [-1e9] for every pair of rows in
    different windows (or past the recording's output length).  When the
    recording fits one chunk ([f <= 2 * n_window]) that chunk is the whole
    recording, it is not padded, and the mask is zero everywhere. *)
Theorem block_mask_by_window (cfg : AudioEncoderConfig) (f : Z) :
  1 <= f < 2 ^ 31 -> 1 <= n_window cfg ->
  n_window cfg * 2 <= n_window_infer cfg ->
  exists lay,
    encoder_layout cfg [f] = Some lay
    /\ window_aftercnn lay
       = max_len_after_cnn (stage lay) * (n_window_infer cfg / (n_window cfg * 2))
    /\ 1 <= max_len_after_cnn (stage lay) <= window_aftercnn lay
    /\ (forall q k,
          0 <= q < lenZ (hidden_rows (stage lay)) ->
          0 <= k < lenZ (hidden_rows (stage lay)) ->
          mask_at (attention_mask lay) q k
          = Some (if (q <? _get_feat_extract_output_lengths f)
                     && (k <? _get_feat_extract_output_lengths f)
                     && (q / window_aftercnn lay =? k / window_aftercnn lay)
                  then 0 else neg_bias))
    /\ (f <= n_window cfg * 2 ->
        chunk_lengths (stage lay) = [f]
        /\ padded_lengths (stage lay) = [f]
        /\ forall q k,
            0 <= q < lenZ (hidden_rows (stage lay)) ->
            0 <= k < lenZ (hidden_rows (stage lay)) ->
            mask_at (attention_mask lay) q k = Some 0).
Proof.
  intros Hf Hn Hinfer.
  destruct (encoder_layout_single cfg f Hf Hn Hinfer)
    as (st & w & Hst & Hw & Hmx & Hone & Hlay).
  pose proof (output_lengths_positive f Hf) as Hpos.
  assert (Hmask : forall q k,
             0 <= q < lenZ (hidden_rows st) -> 0 <= k < lenZ (hidden_rows st) ->
             mask_at (_create_block_attention_mask (lenZ (hidden_rows st))
                        (cumsum (0 :: window_widths (_get_feat_extract_output_lengths f) w)))
                     q k
             = Some (if (q <? _get_feat_extract_output_lengths f)
                        && (k <? _get_feat_extract_output_lengths f)
                        && (q / w =? k / w)
                     then 0 else neg_bias)).
  { intros q k Hq Hk.
    rewrite mask_at_create by assumption.
    rewrite same_window_iff by lia. reflexivity. }
  eexists. split; [exact Hlay|].
  cbn [stage window_aftercnn attention_mask].
  split; [exact Hw|]. split; [exact Hmx|]. split; [exact Hmask|].
  intros Hfit. destruct (Hone Hfit) as (Hc & Hp & Hm & Hlen).
  split; [exact Hc|]. split; [exact Hp|].
  intros q k Hq Hk. rewrite Hmask by assumption.
  destruct (Z.ltb_spec q (_get_feat_extract_output_lengths f)); [|lia].
  destruct (Z.ltb_spec k (_get_feat_extract_output_lengths f)); [|lia].
  rewrite !Z.div_small by lia. reflexivity.
Qed.

Lemma block_mask_by_window_witness :
  exists lay,
    encoder_layout default_config [1000] = Some lay
    /\ window_aftercnn lay = 104
    /\ mask_at (attention_mask lay) 103 0 = Some 0
    /\ mask_at (attention_mask lay) 103 104 = Some neg_bias.
Proof.
  destruct (block_mask_by_window default_config 1000) as (lay & Hlay & Hw & _ & Hm & _).
  - vm_compute. split; [discriminate|reflexivity].
  - vm_compute. discriminate.
  - vm_compute. discriminate.
  - exists lay. split; [exact Hlay|].
    assert (Hlen : lenZ (hidden_rows (stage lay)) = 130).
    { revert Hlay. vm_compute. intros [= <-]. reflexivity. }
    assert (Hw' : window_aftercnn lay = 104).
    { revert Hlay. vm_compute. intros [= <-]. reflexivity. }
    split; [exact Hw'|]. rewrite Hlen, Hw' in Hm. split.
    + rewrite (Hm 103 0) by lia. reflexivity.
    + rewrite (Hm 103 104) by lia. reflexivity.
Defined.

(** C3 as the specification words it fails.  A recording of 200 frames is
    cut into two chunks of 100 frames, 13 rows each; rows 12 and 13 lie on
    opposite sides of the chunk boundary and the mask between them is [0]:
    both chunks fall in one attention window of 104 rows. *)
Lemma block_mask_crosses_chunk_boundary :
  (exists lay,
      encoder_layout default_config [200] = Some lay
      /\ chunk_lengths (stage lay) = [100; 100]
      /\ chunk_of lay 12 = Some 0
      /\ chunk_of lay 13 = Some 1
      /\ mask_at (attention_mask lay) 12 13 = Some 0)
  /\ ~ masks_across_chunks default_config 200.
Proof.
  assert (Hex : exists lay,
             encoder_layout default_config [200] = Some lay
             /\ chunk_lengths (stage lay) = [100; 100]
             /\ chunk_of lay 12 = Some 0
             /\ chunk_of lay 13 = Some 1
             /\ mask_at (attention_mask lay) 12 13 = Some 0).
  { eexists. split; [vm_compute; reflexivity|].
    vm_compute. repeat split; reflexivity. }
  split; [exact Hex|].
  destruct Hex as (lay & E & _ & H12 & H13 & Hm).
  intros H.
  specialize (H lay 12 13 0 1 E ltac:(lia) ltac:(lia) H12 H13 ltac:(lia)).
  rewrite Hm in H. discriminate.
Qed.

(** *** The number of rows the encoder produces *)

Lemma length_kept_rows (i n t : Z) :
  0 <= n -> 0 <= t ->
  lenZ (py_prefix n (map (fun k => (i, k)) (range t))) = Z.min n t.
Proof.
  intros Hn Ht. unfold lenZ, py_prefix.
  destruct (Z.ltb_spec n 0); [lia|].
  rewrite length_firstn, length_map, length_range. lia.
Qed.

Lemma length_hidden_rows (lens : list Z) (t : Z) (i : Z) :
  Forall (fun n => 0 <= n) lens -> 0 <= t ->
  lenZ (concat (mapi_from i (fun i n => py_prefix n (map (fun k => (i, k)) (range t))) lens))
  = sumZ (map (fun n => Z.min n t) lens).
Proof.
  intros Hpos Ht. revert i.
  induction Hpos as [|n lens Hn Hpos IH]; intros i; [reflexivity|].
  cbn [mapi_from concat map sumZ fold_right]. fold (sumZ (map (fun n => Z.min n t) lens)).
  rewrite <- IH with (i := i + 1), <- (length_kept_rows i n t Hn Ht).
  unfold lenZ. rewrite length_app. lia.
Qed.

Lemma conv_out_len_thrice (n : Z) :
  conv_out_len (conv_out_len (conv_out_len n))
  = (((n - 1) / 2 + 1 - 1) / 2 + 1 - 1) / 2 + 1.
Proof.
  unfold conv_out_len.
  replace (n + 2 * 1 - 3) with (n - 1) by lia.
  replace ((n - 1) / 2 + 1 + 2 * 1 - 3) with ((n - 1) / 2 + 1 - 1) by lia.
  replace (((n - 1) / 2 + 1 - 1) / 2 + 1 + 2 * 1 - 3)
    with (((n - 1) / 2 + 1 - 1) / 2 + 1 - 1) by lia.
  reflexivity.
Qed.

(** Up to 100 frames the formula is the time length of three convolutions,
    and at most 13. *)
Lemma output_lengths_one_chunk (x : Z) :
  1 <= x <= 100 ->
  _get_feat_extract_output_lengths x = conv_out_len (conv_out_len (conv_out_len x))
  /\ 1 <= _get_feat_extract_output_lengths x <= 13.
Proof.
  intros Hx.
  rewrite output_lengths_exact, conv_out_len_thrice by lia.
  unfold exact_output_length.
  destruct (Z.eq_dec x 100) as [->|Hne]; [vm_compute; repeat split; discriminate|].
  rewrite (Z.mod_small x 100), (Z.div_small x 100) by lia.
  assert (H1 : 0 <= (x - 1) / 2 <= 49).
  { split; [apply Z.div_pos; lia|]. apply Z.lt_succ_r, Z.div_lt_upper_bound; lia. }
  assert (H2 : 0 <= ((x - 1) / 2 + 1 - 1) / 2 <= 24).
  { split; [apply Z.div_pos; lia|]. apply Z.lt_succ_r, Z.div_lt_upper_bound; lia. }
  assert (H3 : 0 <= (((x - 1) / 2 + 1 - 1) / 2 + 1 - 1) / 2 <= 12).
  { split; [apply Z.div_pos; lia|]. apply Z.lt_succ_r, Z.div_lt_upper_bound; lia. }
  split; [lia|]. lia.
Qed.

Lemma rows_of_default_chunks (cfg : AudioEncoderConfig) (f : Z) :
  1 <= f < 2 ^ 31 -> n_window cfg = 50 ->
  exists st,
    encoder_chunks cfg [f] = Some st
    /\ sumZ (feature_lens_after_cnn st) = _get_feat_extract_output_lengths f
    /\ lenZ (hidden_rows st) = _get_feat_extract_output_lengths f.
Proof.
  intros Hf Hcfg.
  destruct (encoder_chunks_single cfg f Hf ltac:(lia)) as (mx & Hmx & Hst).
  destruct (chunk_lengths_facts f (n_window cfg * 2) Hf ltac:(lia))
    as (_ & Hlens & Hlast & Hn1 & Hsum & Hbound & _).
  rewrite Hcfg in *. change (50 * 2) with 100 in *.
  set (lens := snd (_compute_chunk_layout [f] 100)) in *.
  set (last := if f mod 100 =? 0 then 100 else f mod 100) in *.
  set (n := - (- f / 100)) in *.
  eexists. split; [exact Hst|]. cbn [feature_lens_after_cnn hidden_rows].
  assert (Hpos : Forall (fun k => 0 <= k) (map _get_feat_extract_output_lengths lens)).
  { apply Forall_forall. intros y Hy. apply in_map_iff in Hy.
    destruct Hy as (x & <- & Hx). destruct (Hbound x Hx).
    pose proof (output_lengths_one_chunk x ltac:(lia)). lia. }
  assert (Hsumout : sumZ (map _get_feat_extract_output_lengths lens)
                    = _get_feat_extract_output_lengths f).
  { clearbody lens. subst lens.
    rewrite map_app, sumZ_app, map_repeat, sumZ_repeat, Z2Nat.id by lia.
    cbn [map sumZ fold_right].
    replace (_get_feat_extract_output_lengths 100) with 13
      by (symmetry; apply output_length_100).
    rewrite (output_lengths_exact f), (output_lengths_exact last) by lia.
    unfold exact_output_length.
    pose proof (Z.div_mod f 100 ltac:(lia)) as Hdm.
    pose proof (Z.mod_pos_bound f 100 ltac:(lia)) as Hr.
    unfold last in *.
    destruct (Z.eqb_spec (f mod 100) 0) as [E|E].
    - rewrite E. change (100 mod 100) with 0. change (100 / 100) with 1.
      assert (f / 100 = n) by lia. lia.
    - rewrite Z.mod_mod by lia.
      rewrite (Z.div_small (f mod 100)) by lia.
      assert (f / 100 = n - 1) by lia. lia. }
  split; [exact Hsumout|].
  unfold mapi. rewrite length_hidden_rows.
  - rewrite <- Hsumout. f_equal. rewrite map_map. apply map_ext_in.
    intros x Hx. destruct (Hbound x Hx) as [Hx1 Hx2].
    destruct (output_lengths_one_chunk x ltac:(lia)) as [Ex Hx13].
    destruct (Z.min_spec f 100) as [[Hlt ->]|[Hge ->]].
    + assert (Hone : lens = [f]).
      { clearbody lens. subst lens.
        replace (n - 1) with 0 in * by nia. cbn [Z.to_nat repeat app].
        f_equal. lia. }
      rewrite Hone in Hx. destruct Hx as [<-|[]]. lia.
    + change (conv_out_len (conv_out_len (conv_out_len 100))) with 13. lia.
  - exact Hpos.
  - destruct (Z.min_spec f 100) as [[Hlt ->]|[Hge ->]].
    + destruct (output_lengths_one_chunk f ltac:(lia)) as [<- ?]. lia.
    + change (conv_out_len (conv_out_len (conv_out_len 100))) with 13. lia.
Qed.

(** With the default chunk size of 100 frames ([n_window = 50]) the
    per-chunk output lengths add up to the output length of the whole
    recording: [hidden_states], and with it the sequence of audio
    embeddings the encoder returns, has exactly
    [_get_feat_extract_output_lengths f] rows. *)
Theorem encoder_row_count (cfg : AudioEncoderConfig) (f : Z) :
  1 <= f < 2 ^ 31 -> n_window cfg = 50 ->
  exists st,
    encoder_chunks cfg [f] = Some st
    /\ sumZ (feature_lens_after_cnn st) = _get_feat_extract_output_lengths f
    /\ lenZ (hidden_rows st) = _get_feat_extract_output_lengths f.
Proof. intros Hf Hcfg. now apply rows_of_default_chunks. Qed.

Lemma encoder_row_count_witness :
  exists st,
    encoder_chunks default_config [250] = Some st
    /\ lenZ (hidden_rows st) = 33.
Proof.
  destruct (encoder_row_count default_config 250) as (st & Hst & _ & Hlen).
  - lia.
  - reflexivity.
  - exists st. split; [exact Hst|]. rewrite Hlen. vm_compute. reflexivity.
Defined.


(** *** The chunks as slices of the recording *)

Lemma slice_chunks_loop_widths {A : Type} (feat : list A)
  (chunk_size num_chunks remainder : Z) (js : list Z) (pos : Z) :
  slice_chunks_loop feat chunk_size num_chunks remainder js pos
  = slices_from feat pos
      (map (fun j => if (j <? num_chunks - 1) || (remainder =? 0)
                     then chunk_size else remainder) js).
Proof.
  revert pos. induction js as [|j js IH]; intros pos; [reflexivity|].
  cbn [slice_chunks_loop map slices_from]. now rewrite IH.
Qed.

Lemma py_slice_empty {A : Type} (l : list A) (a : Z) : py_slice l a a = [].
Proof.
  unfold py_slice. apply skipn_all2. rewrite length_firstn. lia.
Qed.

Lemma py_slice_app {A : Type} (l : list A) (a b d : Z) :
  0 <= a <= b -> b <= d -> py_slice l a b ++ py_slice l b d = py_slice l a d.
Proof.
  intros Hab Hbd. unfold py_slice.
  set (L := firstn (Z.to_nat d) l).
  assert (E : firstn (Z.to_nat b) l = firstn (Z.to_nat b) L).
  { unfold L. rewrite firstn_firstn. f_equal. lia. }
  rewrite E.
  rewrite <- (firstn_skipn (Z.to_nat b) L) at 3.
  rewrite skipn_app. f_equal.
  rewrite length_firstn.
  destruct (Nat.le_gt_cases (Z.to_nat b) (List.length L)) as [Hle|Hgt].
  - replace (Z.to_nat a - Nat.min (Z.to_nat b) (List.length L))%nat with 0%nat by lia.
    reflexivity.
  - rewrite (skipn_all2 L) by lia. now rewrite skipn_nil.
Qed.

Lemma concat_slices_from {A : Type} (feat : list A) (widths : list Z) (pos : Z) :
  0 <= pos -> Forall (fun w => 0 <= w) widths ->
  concat (slices_from feat pos widths) = py_slice feat pos (pos + sumZ widths).
Proof.
  intros Hpos Hw. revert pos Hpos.
  induction Hw as [|w widths Hw0 Hw IH]; intros pos Hpos.
  - simpl. now rewrite Z.add_0_r, py_slice_empty.
  - cbn [slices_from concat sumZ fold_right]. fold (sumZ widths).
    assert (Hs : 0 <= sumZ widths).
    { clear IH. induction Hw as [|x l Hx Hl IHl]; simpl; [lia|].
      fold (sumZ l). lia. }
    rewrite IH by lia.
    rewrite py_slice_app by lia. f_equal. lia.
Qed.

Lemma length_slices_from {A : Type} (feat : list A) (widths : list Z) (pos : Z) :
  0 <= pos -> Forall (fun w => 0 <= w) widths ->
  pos + sumZ widths <= lenZ feat ->
  map lenZ (slices_from feat pos widths) = widths.
Proof.
  intros Hpos Hw. revert pos Hpos.
  induction Hw as [|w widths Hw0 Hw IH]; intros pos Hpos Hfit; [reflexivity|].
  cbn [slices_from map sumZ fold_right] in *. fold (sumZ widths) in Hfit.
  assert (Hs : 0 <= sumZ widths).
  { clear IH Hfit. induction Hw as [|x l Hx Hl IHl]; simpl; [lia|].
    fold (sumZ l). lia. }
  rewrite IH by lia. f_equal.
  unfold lenZ, py_slice in *. rewrite length_skipn, length_firstn. lia.
Qed.

(** The slices [_slice_feature_chunks] cuts from one recording have the
    lengths [_compute_chunk_layout] computes, and put end to end they are
    the first [f] frames of the recording: no frame is lost or repeated. *)
Theorem feature_chunks_partition {A : Type} (feat : list A) (f c : Z) :
  1 <= f < 2 ^ 31 -> 1 <= c -> f <= lenZ feat ->
  let layout := _compute_chunk_layout [f] c in
  let chunks := _slice_feature_chunks [feat] [f] (fst layout) c in
  map lenZ chunks = snd layout
  /\ concat chunks = firstn (Z.to_nat f) feat.
Proof.
  intros Hf Hc Hfit layout chunks.
  destruct (chunk_lengths_facts f c Hf Hc)
    as (Hlay & Hlens & Hlast & Hn & Hsum & Hbound & _).
  pose proof (chunk_lengths_single f c Hf Hc) as Hsingle.
  set (n := - (- f / c)) in *.
  set (last := if f mod c =? 0 then c else f mod c) in *.
  assert (Hw : map (fun j => if (j <? n - 1) || (f mod c =? 0) then c else f mod c)
                   (range n)
               = snd layout).
  { unfold layout. rewrite Hsingle. cbn [snd].
    rewrite range_succ, map_app by lia. cbn [map]. f_equal.
    - rewrite (map_const_repeat _ c); [now rewrite length_range|].
      intros j Hj. apply in_range in Hj.
      destruct (Z.ltb_spec j (n - 1)); [reflexivity|lia].
    - destruct (Z.ltb_spec (n - 1) (n - 1)); [lia|]. reflexivity. }
  assert (Hchunks : chunks = slices_from feat 0 (snd layout)).
  { unfold chunks, layout, _slice_feature_chunks. rewrite Hlay.
    cbn [fst snd combine flat_map]. rewrite app_nil_r.
    rewrite slice_chunks_loop_widths. fold layout. now rewrite Hw. }
  assert (Hpos : Forall (fun w => 0 <= w) (snd layout)).
  { apply Forall_forall. intros x Hx. destruct (Hbound x Hx). lia. }
  assert (Hsumf : sumZ (snd layout) = f).
  { unfold layout. rewrite Hsingle. cbn [snd].
    rewrite sumZ_app, sumZ_repeat, Z2Nat.id by lia.
    cbn [sumZ fold_right]. lia. }
  rewrite Hchunks. split.
  - apply length_slices_from; [lia|exact Hpos|lia].
  - rewrite concat_slices_from by (lia || exact Hpos).
    rewrite Hsumf. unfold py_slice. reflexivity.
Qed.

Lemma feature_chunks_partition_witness :
  concat (_slice_feature_chunks [[10; 11; 12; 13; 14]] [5]
            (fst (_compute_chunk_layout [5] 2)) 2)
  = [10; 11; 12; 13; 14].
Proof.
  apply (feature_chunks_partition [10; 11; 12; 13; 14] 5 2);
    unfold lenZ; cbn [List.length]; lia.
Defined.


(** *** The window boundaries and the mask, for any batch *)

(** [freq_after_conv] of [AudioEncoder.__init__]: the input width of
    [conv_out] is [downsample_hidden_size * freq_after_conv]. *)
Definition freq_after_conv (num_mel_bins : Z) : Z :=
  ((((num_mel_bins + 1) / 2) + 1) / 2 + 1) / 2.

Lemma window_widths_spec (n w : Z) :
  0 <= n -> 0 < w ->
  Forall (fun x => 0 < x <= w) (window_widths n w) /\ sumZ (window_widths n w) = n.
Proof.
  intros Hn Hw. unfold window_widths.
  pose proof (Z.div_mod n w ltac:(lia)) as Hd.
  pose proof (Z.mod_pos_bound n w Hw) as Hr.
  assert (Hq : 0 <= n / w) by (apply Z.div_pos; lia).
  assert (Hrep : (if n / w =? 0 then [] else repeat w (Z.to_nat (n / w)))
                 = repeat w (Z.to_nat (n / w))).
  { destruct (Z.eqb_spec (n / w) 0) as [E|E]; [now rewrite E|reflexivity]. }
  rewrite Hrep. split.
  - apply Forall_app. split.
    + apply Forall_forall. intros x Hx. apply repeat_spec in Hx. lia.
    + destruct (Z.eqb_spec (n mod w) 0); constructor; [lia|constructor].
  - rewrite sumZ_app, sumZ_repeat, Z2Nat.id by lia.
    destruct (Z.eqb_spec (n mod w) 0); cbn [sumZ fold_right]; lia.
Qed.

Lemma flat_widths_spec (lens : list Z) (w : Z) :
  0 < w -> Forall (fun n => 0 <= n) lens ->
  Forall (fun x => 0 < x <= w) (flat_map (fun n => window_widths n w) lens)
  /\ sumZ (flat_map (fun n => window_widths n w) lens) = sumZ lens.
Proof.
  intros Hw Hpos. induction Hpos as [|n lens Hn Hpos [IH1 IH2]].
  - split; [constructor|reflexivity].
  - destruct (window_widths_spec n w Hn Hw) as [H1 H2].
    cbn [flat_map]. split.
    + apply Forall_app. now split.
    + rewrite sumZ_app, H2, IH2. reflexivity.
Qed.

Lemma in_blocks_from (acc : Z) (widths : list Z) (a b : Z) :
  In (a, b) (blocks_from acc widths) -> exists x, In x widths /\ b = a + x.
Proof.
  revert acc. induction widths as [|x widths IH]; intros acc; simpl; [tauto|].
  intros [E|Hin].
  - injection E as <- <-. exists x. split; [now left|reflexivity].
  - destruct (IH _ Hin) as (y & Hy & ->). exists y. split; [now right|reflexivity].
Qed.

Lemma last_cumsum_from (acc : Z) (widths : list Z) :
  last (acc :: cumsum_from acc widths) 0 = acc + sumZ widths.
Proof.
  revert acc. induction widths as [|x widths IH]; intros acc.
  - simpl. lia.
  - change (last (acc :: cumsum_from acc (x :: widths)) 0)
      with (last ((acc + x) :: cumsum_from (acc + x) widths) 0).
    rewrite IH. cbn [sumZ fold_right]. fold (sumZ widths). lia.
Qed.

(** [cu_seqlens] for any batch of non-negative lengths and a positive
    window: it starts at 0, ends at the total length, and every step from
    one boundary to the next is positive and at most one window wide.  A
    window of width 0 makes the function raise as soon as there is a
    recording. *)
Theorem cu_seqlens_boundaries (aftercnn_lens : list Z) (w : Z) :
  0 < w -> Forall (fun n => 0 <= n) aftercnn_lens ->
  (exists cu,
      _build_cu_seqlens aftercnn_lens w = Some cu
      /\ hd_error cu = Some 0
      /\ last cu 0 = sumZ aftercnn_lens
      /\ forall a b, In (a, b) (consecutive cu) -> a < b <= a + w)
  /\ (aftercnn_lens <> [] -> _build_cu_seqlens aftercnn_lens 0 = None).
Proof.
  intros Hw Hpos.
  destruct (flat_widths_spec aftercnn_lens w Hw Hpos) as [Hall Hsum].
  split.
  - exists (cumsum (0 :: flat_map (fun n => window_widths n w) aftercnn_lens)).
    split.
    + unfold _build_cu_seqlens. destruct aftercnn_lens; [reflexivity|].
      destruct (Z.eqb_spec w 0); [lia|reflexivity].
    + unfold cumsum. cbn [cumsum_from]. change (0 + 0) with 0.
      split; [reflexivity|]. split.
      * rewrite last_cumsum_from, Hsum. lia.
      * intros a b Hin. rewrite consecutive_cumsum in Hin.
        apply in_blocks_from in Hin. destruct Hin as (x & Hx & ->).
        rewrite Forall_forall in Hall. specialize (Hall x Hx). lia.
  - intros Hne. destruct aftercnn_lens; [congruence|reflexivity].
Qed.

Lemma cu_seqlens_boundaries_witness :
  exists cu,
    _build_cu_seqlens [130; 0; 33] 104 = Some cu
    /\ hd_error cu = Some 0
    /\ last cu 0 = sumZ [130; 0; 33]
    /\ forall a b, In (a, b) (consecutive cu) -> a < b <= a + 104.
Proof.
  apply (cu_seqlens_boundaries [130; 0; 33] 104); [lia|].
  repeat constructor; lia.
Defined.

(** The mask built from any list of non-negative boundaries: the entry of
    two rows is [0] exactly when one block [cu[i], cu[i+1]) holds both,
    and [-1e9] otherwise; the mask is symmetric. *)
Theorem block_mask_entries (seq_len : Z) (cu : list Z) (q k : Z) :
  Forall (fun c => 0 <= c) cu ->
  0 <= q < seq_len -> 0 <= k < seq_len ->
  let mask := _create_block_attention_mask seq_len cu in
  (mask_at mask q k = Some 0
   \/ mask_at mask q k = Some neg_bias)
  /\ (mask_at mask q k = Some 0
      <-> exists a b, In (a, b) (consecutive cu) /\ a <= q < b /\ a <= k < b)
  /\ mask_at mask q k = mask_at mask k q.
Proof.
  intros _ Hq Hk mask.
  assert (Hval : forall q k, 0 <= q < seq_len -> 0 <= k < seq_len ->
             mask_at mask q k
             = Some (if existsb (fun '(s, e) => in_block s e q k) (consecutive cu)
                     then 0 else neg_bias)).
  { intros q0 k0 Hq0 Hk0. unfold mask, _create_block_attention_mask.
    rewrite mask_at_blocks, mask_at_full by lia. reflexivity. }
  assert (Hsym : forall l q k,
             existsb (fun '(s, e) => in_block s e q k) l
             = existsb (fun '(s, e) => in_block s e k q) l).
  { intros l q0 k0. induction l as [|[s e] l IH]; [reflexivity|].
    cbn [existsb]. rewrite IH. unfold in_block.
    destruct (s <=? q0), (q0 <? e), (s <=? k0), (k0 <? e); reflexivity. }
  rewrite (Hval q k Hq Hk), (Hval k q Hk Hq), (Hsym _ k q).
  destruct (existsb (fun '(s, e) => in_block s e q k) (consecutive cu)) eqn:E.
  - split; [now left|]. split; [|reflexivity]. split; [|reflexivity].
    intros _. apply existsb_exists in E. destruct E as ([a b] & Hin & Hb).
    unfold in_block in Hb. rewrite !andb_true_iff, !Z.leb_le, !Z.ltb_lt in Hb.
    exists a, b. split; [exact Hin|]. lia.
  - split; [now right|]. split; [|reflexivity]. split; [discriminate|].
    intros (a & b & Hin & Ha & Hb). exfalso.
    assert (Ht : existsb (fun '(s, e) => in_block s e q k) (consecutive cu) = true);
      [|congruence].
    apply existsb_exists. exists (a, b). split; [exact Hin|].
    unfold in_block. rewrite !andb_true_iff, !Z.leb_le, !Z.ltb_lt. lia.
Qed.

Lemma block_mask_entries_witness :
  mask_at (_create_block_attention_mask 5 [0; 2; 5]) 1 3 = Some neg_bias
  /\ mask_at (_create_block_attention_mask 5 [0; 2; 5]) 1 3
     = mask_at (_create_block_attention_mask 5 [0; 2; 5]) 3 1.
Proof.
  destruct (block_mask_entries 5 [0; 2; 5] 1 3) as (_ & _ & Hsym);
    [repeat constructor; lia|lia|lia|].
  split; [reflexivity|exact Hsym].
Defined.

(** Whatever the number of mel bins, [freq_after_conv] is the frequency
    length the three convolutions leave, so the reshaped convolution output
    has the width [conv_out] expects. *)
Theorem freq_after_conv_is_conv_output (num_mel_bins : Z) :
  freq_after_conv num_mel_bins
  = conv_out_len (conv_out_len (conv_out_len num_mel_bins)).
Proof.
  assert (H : forall n, conv_out_len n = (n + 1) / 2).
  { intros n. unfold conv_out_len.
    replace (n + 1) with (n + 2 * 1 - 3 + 1 * 2) by lia.
    now rewrite Z.div_add by lia. }
  unfold freq_after_conv. now rewrite !H.
Qed.

Example freq_after_conv_128 : freq_after_conv 128 = 16.
Proof. reflexivity. Qed.


(** With the default chunk size the windows of the mask cover
    [hidden_states] exactly: the last boundary of [cu_seqlens] is the
    number of rows, and every row has bias 0 against itself, so no row is
    barred from every key. *)
Theorem every_row_attends_itself (cfg : AudioEncoderConfig) (f : Z) :
  1 <= f < 2 ^ 31 -> n_window cfg = 50 -> 100 <= n_window_infer cfg ->
  exists lay,
    encoder_layout cfg [f] = Some lay
    /\ last (cu_seqlens lay) 0 = lenZ (hidden_rows (stage lay))
    /\ forall q, 0 <= q < lenZ (hidden_rows (stage lay)) ->
         mask_at (attention_mask lay) q q = Some 0.
Proof.
  intros Hf Hcfg Hinfer.
  destruct (encoder_layout_single cfg f Hf ltac:(lia) ltac:(lia))
    as (st & w & Hst & Hw & Hmx & _ & Hlay).
  destruct (rows_of_default_chunks cfg f Hf Hcfg) as (st' & Hst' & _ & Hrows).
  assert (st' = st) by congruence. subst st'.
  pose proof (output_lengths_positive f Hf) as Hpos.
  destruct (window_widths_spec (_get_feat_extract_output_lengths f) w
              ltac:(lia) ltac:(lia)) as [_ Hsum].
  eexists. split; [exact Hlay|].
  cbn [stage cu_seqlens attention_mask]. split.
  - unfold cumsum. cbn [cumsum_from]. change (0 + 0) with 0.
    rewrite last_cumsum_from, Hsum. lia.
  - intros q Hq. rewrite mask_at_create by lia.
    rewrite same_window_iff by lia.
    destruct (Z.ltb_spec q (_get_feat_extract_output_lengths f)); [|lia].
    now rewrite Z.eqb_refl.
Qed.

Lemma every_row_attends_itself_witness :
  exists lay,
    encoder_layout default_config [250] = Some lay
    /\ last (cu_seqlens lay) 0 = lenZ (hidden_rows (stage lay)).
Proof.
  destruct (every_row_attends_itself default_config 250) as (lay & Hlay & Hlast & _).
  - lia.
  - reflexivity.
  - vm_compute. discriminate.
  - exists lay. split; assumption.
Defined.

(** A window of 25 frames, which no configuration file can ask for (see
    [Config]), would leave the last row of a recording of 100 frames outside
    every window: two chunks of 50 frames give 7 rows each, and the
    boundaries stop at 13. *)
Example small_chunks_bar_a_row :
  option_map (fun lay => (lenZ (hidden_rows (stage lay)), cu_seqlens lay,
                          mask_at (attention_mask lay) 13 13))
             (encoder_layout {| n_window := 25; n_window_infer := 800 |} [100])
  = Some (14, [0; 13], Some neg_bias).
Proof. vm_compute. reflexivity. Qed.


Example layout_250 :
  option_map (fun l => (chunk_lengths (stage l), padded_lengths (stage l),
                        feature_lens_after_cnn (stage l), conv_time (stage l),
                        lenZ (hidden_rows (stage l)), window_aftercnn l, cu_seqlens l))
             (encoder_layout default_config [250])
  = Some ([100; 100; 50], [100; 100; 100], [13; 13; 7], 13, 33, 104, [0; 33]).
Proof. vm_compute. reflexivity. Qed.

Example layout_1000 :
  option_map (fun l => (lenZ (hidden_rows (stage l)), cu_seqlens l))
             (encoder_layout default_config [1000])
  = Some (130, [0; 104; 130]).
Proof. vm_compute. reflexivity. Qed.

Transparent _get_feat_extract_output_lengths.

End Encoder.

(* ===================================================================== *)
(** ** Splicing audio embeddings into the prompt
       (transcribe.py, [transcribe_audio] and [Qwen3ASRModel.__call__]) *)
(* ===================================================================== *)

Module Splice.

Import Util.
Local Open Scope Z_scope.

(** [np.nonzero(mask)[0]]: the positions of the true entries, ascending. *)
Fixpoint nonzero_from (i : Z) (mask : list bool) : list Z :=
  match mask with
  | [] => []
  | b :: mask' =>
      if b then i :: nonzero_from (i + 1) mask' else nonzero_from (i + 1) mask'
  end.

Definition nonzero (mask : list bool) : list Z := nonzero_from 0 mask.

(** [l[:n]] for a non-negative [n]. *)
Definition take {A : Type} (n : Z) (l : list A) : list A := firstn (Z.to_nat n) l.

(** One step of a scatter: row [i] of [base] becomes [add base[i] u]. *)
Definition add_at {A : Type} (add : A -> A -> A) (i : Z) (u : A) (base : list A)
  : list A :=
  mapi (fun k x => if k =? i then add x u else x) base.

Fixpoint scatter_add {A : Type} (add : A -> A -> A) (base : list A)
  (indices : list Z) (updates : list A) : list A :=
  match indices, updates with
  | i :: indices', u :: updates' =>
      scatter_add add (add_at add i u base) indices' updates'
  | _, _ => base
  end.

(** [base.at[indices].add(updates)]: the update rows are broadcast against
    the indices; [None] is the ValueError mlx raises when there are neither
    as many rows as indices nor exactly one row. *)
Definition at_add {A : Type} (add : A -> A -> A) (base : list A)
  (indices : list Z) (updates : list A) : option (list A) :=
  if Nat.eqb (List.length updates) (List.length indices) then
    Some (scatter_add add base indices updates)
  else
    match updates with
    | [u] => Some (scatter_add add base indices (repeat u (List.length indices)))
    | _ => None
    end.

(** [mx.where(cond, a, b)], row by row. *)
Fixpoint where_ {A : Type} (cond : list bool) (a b : list A) : list A :=
  match cond, a, b with
  | c :: cond', x :: a', y :: b' => (if c then x else y) :: where_ cond' a' b'
  | _, _, _ => []
  end.

(** *** Scatter and [where] *)

(** The update rows that land on row [k]. *)
Fixpoint hits {A : Type} (k : Z) (indices : list Z) (updates : list A) : list A :=
  match indices, updates with
  | i :: indices', u :: updates' =>
      if i =? k then u :: hits k indices' updates' else hits k indices' updates'
  | _, _ => []
  end.

Lemma length_scatter_add {A : Type} (add : A -> A -> A) (indices : list Z)
  (updates base : list A) :
  List.length (scatter_add add base indices updates) = List.length base.
Proof.
  revert updates base. induction indices as [|i indices IH]; intros [|u updates] base;
    simpl; try reflexivity.
  rewrite IH. unfold add_at, mapi. apply length_mapi_from.
Qed.

Lemma nth_error_scatter_add {A : Type} (add : A -> A -> A) (indices : list Z)
  (updates base : list A) (k : nat) :
  nth_error (scatter_add add base indices updates) k
  = option_map (fun x => fold_left add (hits (Z.of_nat k) indices updates) x)
               (nth_error base k).
Proof.
  revert updates base.
  induction indices as [|i indices IH]; intros [|u updates] base; simpl;
    try (now destruct (nth_error base k)).
  rewrite IH. unfold add_at. rewrite nth_error_mapi.
  destruct (nth_error base k) as [x|]; [|reflexivity]. simpl.
  rewrite (Z.eqb_sym i). now destruct (Z.of_nat k =? i).
Qed.

Lemma hits_not_in {A : Type} (k : Z) (indices : list Z) (updates : list A) :
  ~ In k indices -> hits k indices updates = [].
Proof.
  revert updates. induction indices as [|i indices IH]; intros [|u updates] Hk;
    simpl; try reflexivity.
  destruct (Z.eqb_spec i k) as [->|_].
  - exfalso. apply Hk. now left.
  - apply IH. intros H. apply Hk. now right.
Qed.

Lemma hits_nodup {A : Type} (k : Z) (indices : list Z) (updates : list A)
  (j : nat) (u : A) :
  NoDup indices ->
  nth_error indices j = Some k -> nth_error updates j = Some u ->
  hits k indices updates = [u].
Proof.
  revert updates j. induction indices as [|i indices IH]; intros updates j Hnd Hi Hu.
  - destruct j; discriminate.
  - destruct updates as [|u' updates]; [destruct j; discriminate|].
    inversion Hnd as [|? ? Hnotin Hnd']; subst. simpl.
    destruct j as [|j]; simpl in Hi, Hu.
    + injection Hi as ->. injection Hu as ->.
      rewrite Z.eqb_refl. f_equal. now apply hits_not_in.
    + destruct (Z.eqb_spec i k) as [->|_].
      * exfalso. apply Hnotin. eapply nth_error_In; eassumption.
      * eapply IH; eassumption.
Qed.

Lemma nth_error_where {A : Type} (cond : list bool) (a b : list A) (k : nat) :
  List.length cond = List.length b -> List.length a = List.length b ->
  nth_error (where_ cond a b) k
  = match nth_error cond k, nth_error a k, nth_error b k with
    | Some c, Some x, Some y => Some (if c then x else y)
    | _, _, _ => None
    end.
Proof.
  revert a b k. induction cond as [|c cond IH]; intros [|x a] [|y b] k Hc Ha;
    simpl in *; try discriminate.
  - now destruct k.
  - destruct k as [|k]; simpl; [reflexivity|].
    apply IH; lia.
Qed.

Lemma length_where {A : Type} (cond : list bool) (a b : list A) :
  List.length cond = List.length b -> List.length a = List.length b ->
  List.length (where_ cond a b) = List.length b.
Proof.
  revert a b. induction cond as [|c cond IH]; intros [|x a] [|y b] Hc Ha;
    simpl in *; try discriminate; [reflexivity|].
  f_equal. apply IH; lia.
Qed.

(** *** Placeholder positions *)

Lemma filter_map_comm {A B : Type} (f : B -> bool) (g : A -> B) (l : list A) :
  filter f (map g l) = map g (filter (fun x => f (g x)) l).
Proof.
  induction l as [|x l IH]; simpl; [reflexivity|].
  destruct (f (g x)); simpl; now rewrite IH.
Qed.

Lemma nonzero_from_seq (p : Z -> bool) (l : list Z) (s : nat) :
  nonzero_from (Z.of_nat s) (map p l)
  = map Z.of_nat (filter (fun n => p (nth (n - s) l 0)) (seq s (List.length l))).
Proof.
  revert s. induction l as [|x l IH]; intros s; [reflexivity|].
  cbn [map nonzero_from List.length seq filter].
  rewrite Nat.sub_diag. change (nth 0 (x :: l) 0) with x.
  replace (Z.of_nat s + 1) with (Z.of_nat (S s)) by lia.
  rewrite IH.
  assert (E : filter (fun n => p (nth (n - s) (x :: l) 0)) (seq (S s) (List.length l))
              = filter (fun n => p (nth (n - S s) l 0)) (seq (S s) (List.length l))).
  { apply filter_ext_in. intros n Hn. apply in_seq in Hn.
    replace (n - s)%nat with (S (n - S s)) by lia. reflexivity. }
  rewrite E. now destruct (p x).
Qed.

Lemma NoDup_map_of_nat (l : list nat) : NoDup l -> NoDup (map Z.of_nat l).
Proof.
  induction 1 as [|x l Hx Hnd IH]; simpl; constructor; [|exact IH].
  intros H. apply in_map_iff in H. destruct H as (y & E & Hy).
  apply Nat2Z.inj in E. now subst.
Qed.

Section Embeddings.

(** An embedding vector, the zero vector and the addition of vectors. *)
Variable V : Type.
Variable vzero : V.
Variable vadd : V -> V -> V.
Hypothesis vadd_zero_l : forall v, vadd vzero v = v.

(** [model.model.embed_tokens] and [model.config.audio_token_id]. *)
Variable embed_tokens : Z -> V.
Variable audio_token_id : Z.

(** The replacement of the rows at [audio_indices], shared by both
    callers: lines 713-726 of [transcribe_audio] and 533-546 of
    [Qwen3ASRModel.__call__]. *)
Definition replace_rows (audio_indices : list Z) (audio_features flat_embeds : list V)
  : option (list V) :=
  let num_to_replace := Z.min (lenZ audio_indices) (lenZ audio_features) in
  let indices := take num_to_replace audio_indices in
  match at_add vadd (map (fun _ => vzero) flat_embeds) indices
               (take num_to_replace audio_features) with
  | None => None
  | Some replacement =>
      match at_add Z.add (map (fun _ => 0) flat_embeds) indices [1] with
      | None => None
      | Some mask =>
          Some (where_ (map (fun m => 0 <? m) mask) replacement flat_embeds)
      end
  end.

(** The splice of [transcribe_audio]; [input_ids] is the flattened prompt. *)
Definition splice_transcribe (input_ids : list Z) (audio_features : list V)
  : option (list V) :=
  let inputs_embeds := map embed_tokens input_ids in
  let audio_token_mask := map (fun t => t =? audio_token_id) input_ids in
  if existsb (fun b => b) audio_token_mask then
    let audio_indices := nonzero audio_token_mask in
    if 0 <? lenZ audio_indices then
      replace_rows audio_indices audio_features inputs_embeds
    else Some inputs_embeds
  else Some inputs_embeds.

(** The splice of [Qwen3ASRModel.__call__] on the first forward pass
    ([input_features] given, cache offset 0). *)
Definition splice_call (input_ids : list Z) (audio_features : list V)
  : option (list V) :=
  let inputs_embeds := map embed_tokens input_ids in
  let audio_token_mask := map (fun t => t =? audio_token_id) input_ids in
  if existsb (fun b => b) audio_token_mask then
    let audio_indices := nonzero audio_token_mask in
    if (0 <? lenZ audio_indices) && (0 <? lenZ audio_features) then
      replace_rows audio_indices audio_features inputs_embeds
    else Some inputs_embeds
  else Some inputs_embeds.

(** The placeholder positions of a prompt, in flattened order. *)
Definition placeholder_positions (input_ids : list Z) : list Z :=
  filter (fun i => nthZ i input_ids 0 =? audio_token_id)
         (map Z.of_nat (seq 0 (List.length input_ids))).

Lemma nonzero_placeholders (input_ids : list Z) :
  nonzero (map (fun t => t =? audio_token_id) input_ids)
  = placeholder_positions input_ids.
Proof.
  unfold nonzero, placeholder_positions.
  change 0 with (Z.of_nat 0).
  rewrite (nonzero_from_seq (fun t => t =? audio_token_id)), filter_map_comm.
  f_equal. apply filter_ext. intros n.
  rewrite Nat.sub_0_r. unfold nthZ.
  destruct (Z.ltb_spec (Z.of_nat n) 0); [lia|].
  now rewrite Nat2Z.id.
Qed.

Lemma placeholder_positions_spec (input_ids : list Z) :
  NoDup (placeholder_positions input_ids)
  /\ forall i, In i (placeholder_positions input_ids)
               <-> 0 <= i < lenZ input_ids /\ nthZ i input_ids 0 = audio_token_id.
Proof.
  unfold placeholder_positions. split.
  - apply NoDup_filter, NoDup_map_of_nat, seq_NoDup.
  - intros i. rewrite filter_In, in_map_iff, Z.eqb_eq. unfold lenZ. split.
    + intros [(n & <- & Hn) Hi]. apply in_seq in Hn. split; [lia|exact Hi].
    + intros [Hi Ha]. split; [|exact Ha].
      exists (Z.to_nat i). split; [lia|]. apply in_seq. lia.
Qed.

Lemma nonzero_from_none (i : Z) (mask : list bool) :
  existsb (fun b => b) mask = false -> nonzero_from i mask = [].
Proof.
  revert i. induction mask as [|b mask IH]; intros i; simpl; [reflexivity|].
  destruct b; simpl; [discriminate|]. apply IH.
Qed.

Lemma in_firstn {A : Type} (n : nat) (l : list A) (x : A) :
  In x (firstn n l) -> In x l.
Proof.
  intros H. rewrite <- (firstn_skipn n l). apply in_or_app. now left.
Qed.

Lemma NoDup_firstn {A : Type} (n : nat) (l : list A) :
  NoDup l -> NoDup (firstn n l).
Proof.
  revert l. induction n as [|n IH]; intros l Hnd; simpl; [constructor|].
  destruct l as [|x l]; [constructor|].
  inversion Hnd as [|? ? Hx Hnd']; subst. constructor; [|now apply IH].
  intros H. apply Hx. revert H. apply in_firstn.
Qed.

Lemma at_add_scalar {A : Type} (add : A -> A -> A) (base : list A)
  (indices : list Z) (u : A) :
  at_add add base indices [u]
  = Some (scatter_add add base indices (repeat u (List.length indices))).
Proof.
  unfold at_add. cbn [List.length].
  destruct (Nat.eqb_spec 1 (List.length indices)) as [E|_]; [|reflexivity].
  rewrite <- E. reflexivity.
Qed.

(** What [replace_rows] computes, for distinct non-negative row numbers. *)
Lemma replace_rows_spec (audio_indices : list Z) (audio_features flat_embeds : list V) :
  NoDup audio_indices ->
  (forall i, In i audio_indices -> 0 <= i < lenZ flat_embeds) ->
  let n := Nat.min (List.length audio_indices) (List.length audio_features) in
  exists out,
    replace_rows audio_indices audio_features flat_embeds = Some out
    /\ List.length out = List.length flat_embeds
    /\ (forall j p,
          (j < n)%nat -> nth_error audio_indices j = Some p ->
          nth_error out (Z.to_nat p) = nth_error audio_features j)
    /\ (forall i,
          ~ In (Z.of_nat i) (firstn n audio_indices) ->
          nth_error out i = nth_error flat_embeds i).
Proof.
  intros Hnd Hrange n.
  unfold replace_rows.
  replace (Z.min (lenZ audio_indices) (lenZ audio_features)) with (Z.of_nat n)
    by (unfold lenZ, n; lia).
  unfold take. rewrite Nat2Z.id.
  set (idx := firstn n audio_indices).
  set (upd := firstn n audio_features).
  assert (Hli : List.length idx = n) by (unfold idx, n; rewrite length_firstn; lia).
  assert (Hlu : List.length upd = n) by (unfold upd, n; rewrite length_firstn; lia).
  assert (Hndi : NoDup idx) by (apply NoDup_firstn, Hnd).
  unfold at_add at 1. rewrite Hli, Hlu, Nat.eqb_refl.
  rewrite at_add_scalar, Hli.
  set (replacement := scatter_add vadd (map (fun _ => vzero) flat_embeds) idx upd).
  set (mask := scatter_add Z.add (map (fun _ => 0) flat_embeds) idx (repeat 1 n)).
  assert (Hlr : List.length replacement = List.length flat_embeds)
    by (unfold replacement; now rewrite length_scatter_add, length_map).
  assert (Hlm : List.length (map (fun m => 0 <? m) mask) = List.length flat_embeds)
    by (unfold mask; now rewrite length_map, length_scatter_add, length_map).
  eexists. split; [reflexivity|]. split; [now apply length_where|].
  split.
  - intros j p Hj Hp.
    assert (Hpi : nth_error idx j = Some p)
      by (unfold idx; rewrite nth_error_firstn; destruct (Nat.ltb_spec j n); [exact Hp|lia]).
    assert (Hin : In p audio_indices) by (eapply nth_error_In; eassumption).
    specialize (Hrange p Hin). unfold lenZ in Hrange.
    destruct (nth_error audio_features j) as [u|] eqn:Eu.
    2:{ apply nth_error_None in Eu. unfold n in Hj. lia. }
    assert (Hpu : nth_error upd j = Some u)
      by (unfold upd; rewrite nth_error_firstn; destruct (Nat.ltb_spec j n); [exact Eu|lia]).
    destruct (nth_error flat_embeds (Z.to_nat p)) as [e|] eqn:Ee.
    2:{ apply nth_error_None in Ee. lia. }
    rewrite nth_error_where by assumption.
    rewrite nth_error_map. unfold mask, replacement.
    rewrite !nth_error_scatter_add, !nth_error_map, Ee, Z2Nat.id by lia.
    rewrite (hits_nodup p idx upd j u Hndi Hpi Hpu).
    rewrite (hits_nodup p idx (repeat 1 n) j 1 Hndi Hpi)
      by (apply nth_error_repeat; exact Hj).
    simpl. now rewrite vadd_zero_l.
  - intros i Hi. fold idx in Hi.
    rewrite nth_error_where by assumption.
    rewrite nth_error_map. unfold mask, replacement.
    rewrite !nth_error_scatter_add, !nth_error_map.
    rewrite !hits_not_in by exact Hi.
    now destruct (nth_error flat_embeds i).
Qed.

(** C4.  For a prompt with [P] placeholder positions and [E] audio
    embeddings the splice succeeds whatever [P] and [E] are; it overwrites
    the first [min P E] placeholder positions, in flattened order, the
    [j]-th of them with the [j]-th audio embedding, and leaves the token
    embedding at every other position.  Both copies of the splice agree. *)
Theorem splice_replaces_min (input_ids : list Z) (audio_features : list V) :
  let ph := placeholder_positions input_ids in
  let n := Nat.min (List.length ph) (List.length audio_features) in
  exists out,
    splice_transcribe input_ids audio_features = Some out
    /\ splice_call input_ids audio_features = Some out
    /\ List.length out = List.length input_ids
    /\ NoDup (firstn n ph) /\ List.length (firstn n ph) = n
    /\ (forall j p,
          (j < n)%nat -> nth_error ph j = Some p ->
          nth_error out (Z.to_nat p) = nth_error audio_features j)
    /\ (forall i,
          (i < List.length input_ids)%nat -> ~ In (Z.of_nat i) (firstn n ph) ->
          nth_error out i = Some (embed_tokens (nth i input_ids 0))).
Proof.
  intros ph n.
  destruct (placeholder_positions_spec input_ids) as [Hnd Hin]. fold ph in Hnd, Hin.
  assert (Hcount : NoDup (firstn n ph) /\ List.length (firstn n ph) = n).
  { split; [apply NoDup_firstn, Hnd|]. rewrite length_firstn. unfold n. lia. }
  assert (Hembed : forall i, (i < List.length input_ids)%nat ->
             nth_error (map embed_tokens input_ids) i
             = Some (embed_tokens (nth i input_ids 0))).
  { intros i Hi. rewrite nth_error_map.
    now rewrite (nth_error_nth' input_ids 0 Hi). }
  unfold splice_transcribe, splice_call.
  rewrite nonzero_placeholders. fold ph.
  destruct (existsb (fun b => b) (map (fun t => t =? audio_token_id) input_ids)) eqn:Eany.
  - destruct (replace_rows_spec ph audio_features (map embed_tokens input_ids) Hnd)
      as (out & Hout & Hlen & Hrep & Hkeep).
    { intros i Hi. apply Hin in Hi. unfold lenZ in *. rewrite length_map. tauto. }
    fold n in Hrep, Hkeep.
    destruct (Z.ltb_spec 0 (lenZ ph)) as [Hp|Hp].
    + destruct (Z.ltb_spec 0 (lenZ audio_features)) as [He|He]; cbn [andb].
      * exists out. rewrite Hout, Hlen, length_map.
        repeat (split; [solve [reflexivity | tauto | exact Hrep]|]).
        intros i Hi Hni. rewrite Hkeep by exact Hni. now apply Hembed.
      * assert (Hn0 : n = 0%nat) by (unfold n, lenZ in *; lia).
        exists (map embed_tokens input_ids). rewrite length_map.
        split.
        { rewrite Hout. f_equal.
          apply nth_error_ext. intros i. apply Hkeep.
          rewrite Hn0. simpl. tauto. }
        repeat (split; [solve [reflexivity | tauto]|]).
        split; [intros j p Hj; lia|].
        intros i Hi _. now apply Hembed.
    + assert (Hn0 : n = 0%nat) by (unfold n, lenZ in *; lia).
      exists (map embed_tokens input_ids). rewrite length_map.
      repeat (split; [solve [reflexivity | tauto]|]).
      split; [intros j p Hj; lia|].
      intros i Hi _. now apply Hembed.
  - assert (Hph : ph = []).
    { unfold ph. rewrite <- nonzero_placeholders. now apply nonzero_from_none. }
    exists (map embed_tokens input_ids). rewrite length_map.
    repeat (split; [solve [reflexivity | tauto]|]).
    split.
    + intros j p Hj. unfold n in Hj. rewrite Hph in Hj. simpl in Hj. lia.
    + intros i Hi _. now apply Hembed.
Qed.

End Embeddings.

Lemma splice_replaces_min_witness :
  exists out,
    splice_transcribe Z 0 Z.add (fun t => t) 7 [1; 7; 7; 2; 7] [100; 200] = Some out
    /\ nth_error out 1 = Some 100
    /\ nth_error out 2 = Some 200
    /\ nth_error out 4 = Some 7.
Proof.
  destruct (splice_replaces_min Z 0 Z.add Z.add_0_l (fun t => t) 7
              [1; 7; 7; 2; 7] [100; 200])
    as (out & Hout & _ & _ & _ & _ & Hrep & Hkeep).
  exists out. split; [exact Hout|].
  split; [exact (Hrep 0%nat 1 ltac:(simpl; lia) eq_refl)|].
  split; [exact (Hrep 1%nat 2 ltac:(simpl; lia) eq_refl)|].
  apply (Hkeep 4%nat); [simpl; lia|].
  simpl. intros [H|[H|[]]]; discriminate.
Defined.


Example splice_more_placeholders :
  splice_transcribe Z 0 Z.add (fun t => t) 7 [1; 7; 7; 2; 7] [100; 200]
  = Some [1; 100; 200; 2; 7].
Proof. vm_compute. reflexivity. Qed.

Example splice_more_embeddings :
  splice_transcribe Z 0 Z.add (fun t => t) 7 [1; 7; 7; 2] [100; 200; 300]
  = Some [1; 100; 200; 2].
Proof. vm_compute. reflexivity. Qed.

End Splice.

(* ===================================================================== *)
(** ** The causal mask and the generation loop of the text decoder
       (transcribe.py, [create_additive_causal_mask] and [transcribe_audio]) *)
(* ===================================================================== *)

Module Decoder.

Import Util.
Local Open Scope Z_scope.

(** [mx.arange(lo, hi)]. *)
Definition arange (lo hi : Z) : list Z :=
  map (fun i => lo + Z.of_nat i) (seq 0 (Z.to_nat (hi - lo))).

(** [create_additive_causal_mask(N, offset)]: the boolean [linds < rinds]
    times [-1e9]. *)
Definition create_additive_causal_mask (N offset : Z) : list (list Z) :=
  let rinds := arange 0 (offset + N) in
  let linds := if offset =? 0 then rinds else arange offset (offset + N) in
  map (fun l => map (fun r => (if l <? r then 1 else 0) * -1000000000) rinds) linds.

(** [eos_token_ids] of [transcribe_audio]. *)
Definition eos_token_ids : list Z := [151645; 151643].

(** The loop over [generate_step]: [tokens] are the tokens the generator
    would yield, at most [max_tokens] of them; the loop leaves at the first
    end-of-sequence token and keeps the tokens before it. *)
Fixpoint generated (tokens : list Z) : list Z :=
  match tokens with
  | [] => []
  | token :: tokens' =>
      if existsb (Z.eqb token) eos_token_ids then [] else token :: generated tokens'
  end.

Lemma nth_error_arange (lo hi : Z) (i : nat) :
  (i < Z.to_nat (hi - lo))%nat -> nth_error (arange lo hi) i = Some (lo + Z.of_nat i).
Proof.
  intros Hi. unfold arange. rewrite nth_error_map, nth_error_seq.
  destruct (Nat.ltb_spec i (Z.to_nat (hi - lo))); [reflexivity|lia].
Qed.

(** The causal mask has one row per new position and one column per cached
    or new position; the query at absolute position [offset + q] carries
    the bias [-1e9] against every later key and [0] against itself and
    every earlier key. *)
Theorem causal_mask_bars_future (N offset q k : Z) :
  0 <= offset -> 0 <= q < N -> 0 <= k < offset + N ->
  match nth_error (create_additive_causal_mask N offset) (Z.to_nat q) with
  | Some row =>
      nth_error row (Z.to_nat k)
      = Some (if offset + q <? k then -1000000000 else 0)
  | None => False
  end.
Proof.
  intros Hoff Hq Hk. unfold create_additive_causal_mask.
  assert (Hl : nth_error (if offset =? 0 then arange 0 (offset + N)
                          else arange offset (offset + N)) (Z.to_nat q)
               = Some (offset + q)).
  { destruct (Z.eqb_spec offset 0) as [->|Hne].
    - rewrite nth_error_arange by lia. f_equal. lia.
    - rewrite nth_error_arange by lia. f_equal. lia. }
  rewrite nth_error_map, Hl. cbn [option_map].
  rewrite nth_error_map, nth_error_arange by lia. cbn [option_map].
  replace (0 + Z.of_nat (Z.to_nat k)) with k by lia.
  now destruct (offset + q <? k).
Qed.

Lemma causal_mask_bars_future_witness :
  create_additive_causal_mask 2 3
  = [[0; 0; 0; 0; -1000000000]; [0; 0; 0; 0; 0]]
  /\ match nth_error (create_additive_causal_mask 2 3) (Z.to_nat 0) with
     | Some row => nth_error row (Z.to_nat 4) = Some (if 3 + 0 <? 4 then -1000000000 else 0)
     | None => False
     end.
Proof.
  split; [reflexivity|].
  apply (causal_mask_bars_future 2 3 0 4); lia.
Defined.

(** The tokens kept are a prefix of the tokens generated, none of them is
    an end-of-sequence token, and the loop stops short only at one. *)
Theorem generation_stops_at_eos (tokens : list Z) :
  exists rest,
    tokens = generated tokens ++ rest
    /\ Forall (fun t => ~ In t eos_token_ids) (generated tokens)
    /\ match rest with
       | [] => True
       | token :: _ => In token eos_token_ids
       end.
Proof.
  induction tokens as [|token tokens IH].
  - exists []. repeat split. constructor.
  - cbn [generated].
    destruct (existsb (Z.eqb token) eos_token_ids) eqn:E.
    + exists (token :: tokens). split; [reflexivity|]. split; [constructor|].
      apply existsb_exists in E. destruct E as (x & Hx & Ex).
      apply Z.eqb_eq in Ex. now subst.
    + destruct IH as (rest & Heq & Hall & Hrest).
      exists rest. split; [simpl; now f_equal|]. split; [|exact Hrest].
      constructor; [|exact Hall].
      intros Hin.
      assert (existsb (Z.eqb token) eos_token_ids = true); [|congruence].
      apply existsb_exists. exists token. split; [exact Hin|apply Z.eqb_refl].
Qed.

Example generated_until_eos :
  generated [220; 9707; 151645; 1879; 151643] = [220; 9707].
Proof. reflexivity. Qed.

End Decoder.

(* ===================================================================== *)
(** ** Which modules are quantized at load time
       (transcribe.py, [load_model] and its [class_predicate]) *)
(* ===================================================================== *)

Module Quantize.

Import String.
Local Open Scope Z_scope.

(** What [class_predicate] reads of a module: whether it has a
    [to_quantized] method, and the element count of its [weight] when it
    has one. *)
Record NNModule : Type := {
  has_to_quantized : bool;
  weight_size : option Z
}.


(** [class_predicate(p, m)]; [weights] are the keys of the loaded weight
    dictionary. *)
Definition class_predicate (weights : list string) (p : string) (m : NNModule)
  : bool :=
  if negb (has_to_quantized m) then false
  else if match weight_size m with
          | Some size => negb (size mod 64 =? 0)
          | None => false
          end then false
  else if prefix "audio_tower" p then false
  else existsb (String.eqb (append p ".scales")) weights.








Example audio_tower_not_quantized :
  class_predicate ["audio_tower.layers.0.fc1.scales"%string]
                  "audio_tower.layers.0.fc1"
                  {| has_to_quantized := true; weight_size := Some 4194304 |}
  = false.
Proof. reflexivity. Qed.

End Quantize.

(* ===================================================================== *)
(** ** The request loop (transcribe.py, [load_wav] and [main]) *)
(* ===================================================================== *)

Module Server.

Import Util String.
Local Open Scope Z_scope.

(** A Python [str]: its Unicode code points. *)
Definition pystr : Type := list Z.

(** An ASCII literal as a [str]. *)
Definition py (s : string) : pystr :=
  map (fun a => Z.of_N (Ascii.N_of_ascii a)) (list_ascii_of_string s).

Fixpoint pystr_eqb (a b : pystr) : bool :=
  match a, b with
  | [], [] => true
  | x :: a', y :: b' => (x =? y) && pystr_eqb a' b'
  | _, _ => false
  end.

(** The code points [str.strip()] removes ([str.isspace]). *)
Definition is_space (c : Z) : bool :=
  ((9 <=? c) && (c <=? 13)) || ((28 <=? c) && (c <=? 32))
  || (c =? 133) || (c =? 160) || (c =? 5760)
  || ((8192 <=? c) && (c <=? 8202))
  || (c =? 8232) || (c =? 8233) || (c =? 8239) || (c =? 8287) || (c =? 12288).

Fixpoint lstrip (s : pystr) : pystr :=
  match s with
  | [] => []
  | c :: s' => if is_space c then lstrip s' else s
  end.

Definition rstrip (s : pystr) : pystr := rev (lstrip (rev s)).

Definition strip (s : pystr) : pystr := rstrip (lstrip s).

(** What [json.loads] returns.  An object is a dict: its keys are distinct
    and a lookup finds the one entry of a key. *)
#[warnings="-register-all"]
Inductive json : Type :=
| JNull
| JBool (b : bool)
| JInt (z : Z)
| JFloat (f : PrimFloat.float)
| JStr (s : pystr)
| JArr (items : list json)
| JObj (entries : list (pystr * json)).

Fixpoint dict_get (key : pystr) (entries : list (pystr * json)) : option json :=
  match entries with
  | [] => None
  | (k, v) :: entries' => if pystr_eqb k key then Some v else dict_get key entries'
  end.

(** Python's truth value of a decoded JSON value ([not wav_path]). *)
Definition truthy (v : json) : bool :=
  match v with
  | JNull => false
  | JBool b => b
  | JInt z => negb (z =? 0)
  | JFloat f => negb (PrimFloat.eqb f PrimFloat.zero)
  | JStr s => match s with [] => false | _ :: _ => true end
  | JArr items => match items with [] => false | _ :: _ => true end
  | JObj entries => match entries with [] => false | _ :: _ => true end
  end.

(** What [wave.open(path, "rb")] gives access to. *)
Record WaveRead : Type := {
  nchannels : Z;
  sampwidth : Z;
  framerate : Z;
  frames : list Z
}.

(** The three assertions of [load_wav], with the value they report. *)
Inductive wav_check : Type :=
| ExpectedMono (channels : Z)
| Expected16Bit (bits : Z)
| Expected16kHz (rate : Z).

(** The exceptions a request can raise: an [AssertionError] of [load_wav],
    or an exception raised inside a library call, named by its message. *)
Inductive exn : Type :=
| AssertionError (check : wav_check)
| LibraryError (message : pystr).

(** The objects the server prints on stdout, one per line. *)
Inductive error_message : Type :=
| InvalidJSON (detail : pystr)
| UnknownCommand (cmd : json)
| MissingWavField
| Failure (e : exn).

Inductive response : Type :=
| StatusReady
| Text (text : pystr)
| Error (message : error_message).

(** The lines [log] writes on stderr inside the loop. *)
Inductive log_line : Type :=
| LogQuit
| LogTranscribing (wav_path : json) (seconds : Q)
| LogCompleted (text : pystr)
| LogError (e : exn).

(** How one iteration of [for line in sys.stdin] ends. *)
Inductive control : Type :=
| Continue
| Break
| Raise.

(** How the loop ends: on [quit], at the end of the input, or on an
    exception no handler catches. *)
Inductive outcome : Type :=
| QuitReceived
| EndOfInput
| Crashed.

(** [np.frombuffer(frames, dtype=np.int16)]: little-endian signed 16-bit
    samples; [None] is the ValueError on an odd number of bytes. *)
Fixpoint frombuffer_int16 (bytes : list Z) : option (list Z) :=
  match bytes with
  | [] => Some []
  | lo :: bytes' =>
      match bytes' with
      | [] => None
      | hi :: rest =>
          match frombuffer_int16 rest with
          | None => None
          | Some samples =>
              let u := lo + 256 * hi in
              Some ((if u <? 32768 then u else u - 65536) :: samples)
          end
      end
  end.

Section Loop.

(** The model object shared by all requests. *)
Variable Model : Type.

(** [json.loads]: the decoded value, or the message of the
    [JSONDecodeError]; the empty string is not a JSON document. *)
Variable json_loads : pystr -> json + pystr.
Hypothesis json_loads_empty : forall v, json_loads [] <> inl v.

(** [wave.open(path, "rb")] on the file system of the moment: the opened
    file, or the message of the exception raised. *)
Variable wave_open : pystr -> WaveRead + pystr.

(** [transcribe_audio(model, tokenizer, feature_extractor, audio,
    language)]: the text or the exception raised, and the model object as
    the call leaves it. *)
Variable transcribe_audio : Model -> list Q -> json -> Model * (pystr + exn).

(** The state of the process inside the loop; [inference_calls] counts the
    calls of [transcribe_audio]. *)
Record State : Type := {
  model : Model;
  stdout : list response;
  stderr : list log_line;
  inference_calls : nat
}.

Definition print (st : State) (r : response) : State :=
  {| model := model st;
     stdout := stdout st ++ [r];
     stderr := stderr st;
     inference_calls := inference_calls st |}.

Definition log (st : State) (l : log_line) : State :=
  {| model := model st;
     stdout := stdout st;
     stderr := stderr st ++ [l];
     inference_calls := inference_calls st |}.

(** [load_wav(path)], with its [assert] statements executed (the script is
    not run with [-O]); a path that is not a [str] makes [wave.open]
    raise. *)
Definition load_wav (path : json) : list Q + exn :=
  match path with
  | JStr p =>
      match wave_open p with
      | inr message => inr (LibraryError message)
      | inl wf =>
          if negb (nchannels wf =? 1) then
            inr (AssertionError (ExpectedMono (nchannels wf)))
          else if negb (sampwidth wf =? 2) then
            inr (AssertionError (Expected16Bit (sampwidth wf * 8)))
          else if negb (framerate wf =? 16000) then
            inr (AssertionError (Expected16kHz (framerate wf)))
          else
            match frombuffer_int16 (frames wf) with
            | None => inr (LibraryError (py "buffer size must be a multiple of element size"))
            | Some samples => inl (map (fun s => inject_Z s / 32768)%Q samples)
            end
      end
  | _ => inr (LibraryError (py "object has no attribute 'read'"))
  end.

(** The body of the loop for one line of stdin. *)
Definition handle_line (st : State) (line : pystr) : State * control :=
  let line := strip line in
  match line with
  | [] => (st, Continue)
  | _ :: _ =>
      match json_loads line with
      | inr e => (print st (Error (InvalidJSON e)), Continue)
      | inl (JObj request) =>
          match dict_get (py "cmd") request with
          | Some cmd =>
              match cmd with
              | JStr c =>
                  if pystr_eqb c (py "ping") then (print st StatusReady, Continue)
                  else if pystr_eqb c (py "quit") then (log st LogQuit, Break)
                  else (print st (Error (UnknownCommand cmd)), Continue)
              | _ => (print st (Error (UnknownCommand cmd)), Continue)
              end
          | None =>
              let wav_path :=
                match dict_get (py "wav") request with Some v => v | None => JNull end in
              let language :=
                match dict_get (py "language") request with
                | Some v => v
                | None => JStr (py "English")
                end in
              if negb (truthy wav_path) then
                (print st (Error MissingWavField), Continue)
              else
                match load_wav wav_path with
                | inr e => (print (log st (LogError e)) (Error (Failure e)), Continue)
                | inl audio =>
                    let st1 :=
                      log st (LogTranscribing wav_path
                                (inject_Z (lenZ audio) / 16000)%Q) in
                    let '(model', result) :=
                      transcribe_audio (model st1) audio language in
                    let st2 :=
                      {| model := model';
                         stdout := stdout st1;
                         stderr := stderr st1;
                         inference_calls := S (inference_calls st1) |} in
                    match result with
                    | inr e => (print (log st2 (LogError e)) (Error (Failure e)), Continue)
                    | inl text => (print (log st2 (LogCompleted text)) (Text text), Continue)
                    end
                end
          end
      | inl _ =>
          (* ["cmd" in request], [request["cmd"]] or [request.get] raises a
             TypeError or an AttributeError on a value that is not a dict,
             outside every [try] *)
          (st, Raise)
      end
  end.

(** [for line in sys.stdin: ...]; nothing is printed after the loop. *)
Fixpoint serve (st : State) (lines : list pystr) : State * outcome :=
  match lines with
  | [] => (st, EndOfInput)
  | line :: lines' =>
      match handle_line st line with
      | (st', Continue) => serve st' lines'
      | (st', Break) => (st', QuitReceived)
      | (st', Raise) => (st', Crashed)
      end
  end.

(** [main] once the model is loaded: the optional warm-up transcription of
    a second of silence (an exception there ends the process before the
    ready line), the ready line, then the loop. *)
Definition main (m : Model) (warmup : bool) (lines : list pystr) : State * outcome :=
  if warmup then
    let '(m', result) :=
      transcribe_audio m (repeat 0%Q (Z.to_nat 16000)) (JStr (py "English")) in
    let st0 := {| model := m'; stdout := []; stderr := []; inference_calls := 1 |} in
    match result with
    | inr _ => (st0, Crashed)
    | inl _ => serve (print st0 StatusReady) lines
    end
  else
    serve (print {| model := m; stdout := []; stderr := []; inference_calls := 0 |}
                 StatusReady)
          lines.

(** A line the server answers [{"status": "ready"}] to. *)
Definition is_ping (line : pystr) : Prop :=
  exists request,
    json_loads (strip line) = inl (JObj request)
    /\ dict_get (py "cmd") request = Some (JStr (py "ping")).



Lemma pystr_eqb_eq (a b : pystr) : pystr_eqb a b = true <-> a = b.
Proof.
  revert b. induction a as [|x a IH]; intros [|y b]; simpl;
    try (split; [discriminate|discriminate]); [tauto|].
  rewrite andb_true_iff, Z.eqb_eq, IH. split.
  - intros [-> ->]. reflexivity.
  - intros [= -> ->]. split; reflexivity.
Qed.

Lemma serve_continue (st st' : State) (line : pystr) (rest : list pystr) :
  handle_line st line = (st', Continue) ->
  serve st (line :: rest) = serve st' rest.
Proof. intros H. simpl. now rewrite H. Qed.

Lemma parsed_not_blank (line : pystr) (v : json) :
  json_loads (strip line) = inl v -> exists c s, strip line = c :: s.
Proof.
  intros H. destruct (strip line) as [|c s]; [|eauto].
  now apply json_loads_empty in H.
Qed.

Lemma handle_ping (st : State) (line : pystr) :
  is_ping line -> handle_line st line = (print st StatusReady, Continue).
Proof.
  intros (request & Hparse & Hcmd).
  destruct (parsed_not_blank _ _ Hparse) as (c & s & Hs).
  unfold handle_line. rewrite Hs, <- Hs, Hparse, Hcmd.
  reflexivity.
Qed.




(** C10.  A line that is empty once stripped produces no output at all,
    on either channel, and the loop goes on to the next line with the
    state it had. *)
Theorem blank_line_ignored (st : State) (line : pystr) (rest : list pystr) :
  strip line = [] ->
  handle_line st line = (st, Continue)
  /\ serve st (line :: rest) = serve st rest.
Proof.
  intros Hblank.
  assert (H : handle_line st line = (st, Continue))
    by (unfold handle_line; now rewrite Hblank).
  split; [exact H|]. now apply serve_continue.
Qed.

(** C8.  A line that parses to an object whose [cmd] is ["quit"] ends the
    loop: the lines after it are not read, stdout is left as it was, and
    the only thing written is the log line on stderr. *)
Theorem quit_ends_loop_without_output (st : State) (line : pystr)
  (rest : list pystr) (request : list (pystr * json)) :
  json_loads (strip line) = inl (JObj request) ->
  dict_get (py "cmd") request = Some (JStr (py "quit")) ->
  serve st (line :: rest) = (log st LogQuit, QuitReceived)
  /\ stdout (fst (serve st (line :: rest))) = stdout st
  /\ model (fst (serve st (line :: rest))) = model st
  /\ inference_calls (fst (serve st (line :: rest))) = inference_calls st.
Proof.
  intros Hparse Hcmd.
  destruct (parsed_not_blank _ _ Hparse) as (c & s & Hs).
  assert (H : handle_line st line = (log st LogQuit, Break)).
  { unfold handle_line. rewrite Hs, <- Hs, Hparse, Hcmd. reflexivity. }
  assert (E : serve st (line :: rest) = (log st LogQuit, QuitReceived))
    by (simpl; now rewrite H).
  rewrite E. repeat split.
Qed.


(** C7.  A transcription request whose WAV file cannot be opened, or is
    not mono, not 16-bit or not sampled at 16000 Hz, is answered by one
    error object; [transcribe_audio] is not called, the model object is
    the one the request found, and the loop goes on. *)
Theorem bad_wav_rejected_before_inference (st : State) (line : pystr)
  (rest : list pystr) (request : list (pystr * json)) (path : pystr) :
  json_loads (strip line) = inl (JObj request) ->
  dict_get (py "cmd") request = None ->
  dict_get (py "wav") request = Some (JStr path) ->
  path <> [] ->
  ((exists message, wave_open path = inr message)
   \/ (exists wf, wave_open path = inl wf
                  /\ (nchannels wf <> 1 \/ sampwidth wf <> 2 \/ framerate wf <> 16000))) ->
  exists e st',
    serve st (line :: rest) = serve st' rest
    /\ stdout st' = stdout st ++ [Error (Failure e)]
    /\ stderr st' = stderr st ++ [LogError e]
    /\ model st' = model st
    /\ inference_calls st' = inference_calls st.
Proof.
  intros Hparse Hcmd Hwav Hpath Hbad.
  destruct (parsed_not_blank _ _ Hparse) as (c & s & Hs).
  assert (Hload : exists e, load_wav (JStr path) = inr e).
  { unfold load_wav. destruct Hbad as [(message & Hopen)|(wf & Hopen & Hfmt)];
      rewrite Hopen; [eauto|].
    destruct (Z.eqb_spec (nchannels wf) 1); simpl; [|eauto].
    destruct (Z.eqb_spec (sampwidth wf) 2); simpl; [|eauto].
    destruct (Z.eqb_spec (framerate wf) 16000); simpl; [|eauto].
    exfalso. tauto. }
  destruct Hload as (e & Hload).
  exists e, (print (log st (LogError e)) (Error (Failure e))).
  split; [|repeat split].
  apply serve_continue.
  unfold handle_line. rewrite Hs, <- Hs, Hparse, Hcmd, Hwav. cbv zeta.
  destruct path as [|p0 path']; [congruence|].
  cbn [truthy negb]. now rewrite Hload.
Qed.


(** A ping is answered [{"status": "ready"}] whatever came before, the
    first line after startup included, and the loop goes on. *)
Theorem ping_answers_ready (st : State) (line : pystr) (rest : list pystr) :
  is_ping line ->
  serve st (line :: rest) = serve (print st StatusReady) rest.
Proof.
  intros Hping. apply serve_continue. now apply handle_ping.
Qed.

Lemma frombuffer_int16_range (bytes : list Z) (samples : list Z) :
  Forall (fun b => 0 <= b < 256) bytes ->
  frombuffer_int16 bytes = Some samples ->
  Forall (fun s => -32768 <= s < 32768) samples
  /\ 2 * lenZ samples = lenZ bytes.
Proof.
  remember (List.length bytes) as n eqn:Hn.
  assert (Hle : (List.length bytes <= n)%nat) by lia. clear Hn.
  revert bytes samples Hle.
  induction n as [|n IH]; intros bytes samples Hle Hb Hs.
  { destruct bytes; [|simpl in Hle; lia].
    injection Hs as <-. split; [constructor|reflexivity]. }
  destruct bytes as [|lo [|hi rest]]; cbn [frombuffer_int16] in Hs.
  - injection Hs as <-. split; [constructor|reflexivity].
  - discriminate.
  - destruct (frombuffer_int16 rest) as [tl|] eqn:E; [|discriminate].
    injection Hs as <-.
    inversion Hb as [|? ? Hlo Hb']; subst.
    inversion Hb' as [|? ? Hhi Hrest]; subst.
    destruct (IH rest tl ltac:(simpl in Hle; lia) Hrest E) as [Htl Hlen].
    split.
    + constructor; [|exact Htl].
      assert (Hu : forall u, 0 <= u < 65536 ->
                 -32768 <= (if u <? 32768 then u else u - 65536) < 32768).
      { intros u Hu. destruct (Z.ltb_spec u 32768); lia. }
      apply (Hu (lo + 256 * hi)). lia.
    + unfold lenZ in *. cbn [List.length]. lia.
Qed.

(** What [load_wav] returns, when it returns: the file is mono, 16-bit and
    sampled at 16000 Hz, there is one sample per two bytes of frame data,
    and every sample lies in [-1, 1). *)
Theorem load_wav_samples (path : json) (audio : list Q) :
  (forall p wf, wave_open p = inl wf -> Forall (fun b => 0 <= b < 256) (frames wf)) ->
  load_wav path = inl audio ->
  exists p wf,
    path = JStr p /\ wave_open p = inl wf
    /\ nchannels wf = 1 /\ sampwidth wf = 2 /\ framerate wf = 16000
    /\ 2 * lenZ audio = lenZ (frames wf)
    /\ Forall (fun s => (-1 <= s)%Q /\ (s < 1)%Q) audio.
Proof.
  intros Hbytes Hload. unfold load_wav in Hload.
  destruct path as [| | | |p| |]; try discriminate.
  destruct (wave_open p) as [wf|message] eqn:Hopen; [|discriminate].
  destruct (Z.eqb_spec (nchannels wf) 1) as [Hc|]; simpl in Hload; [|discriminate].
  destruct (Z.eqb_spec (sampwidth wf) 2) as [Hw|]; simpl in Hload; [|discriminate].
  destruct (Z.eqb_spec (framerate wf) 16000) as [Hr|]; simpl in Hload; [|discriminate].
  destruct (frombuffer_int16 (frames wf)) as [samples|] eqn:Hsamples; [|discriminate].
  injection Hload as <-.
  destruct (frombuffer_int16_range _ _ (Hbytes p wf Hopen) Hsamples) as [Hrange Hlen].
  exists p, wf. repeat (split; [assumption || reflexivity|]).
  split.
  - unfold lenZ in *. now rewrite length_map.
  - apply Forall_forall. intros s Hs. apply in_map_iff in Hs.
    destruct Hs as (z & <- & Hz).
    rewrite Forall_forall in Hrange. specialize (Hrange z Hz).
    unfold Qdiv, Qle, Qlt. simpl. lia.
Qed.


(** *** The protocol as a whole *)





(** A line that is valid JSON but does not decode to an object (a number,
    a string, a list, [null], ...) ends the server: the exception is
    raised outside every [try], nothing is written for the line, and the
    lines after it are never read. *)
Theorem non_object_request_ends_server (st : State) (line : pystr)
  (rest : list pystr) (v : json) :
  json_loads (strip line) = inl v ->
  (forall request, v <> JObj request) ->
  serve st (line :: rest) = (st, Crashed).
Proof.
  intros Hparse Hobj.
  destruct (parsed_not_blank _ _ Hparse) as (c & s & Hs).
  cbn [serve]. unfold handle_line. rewrite Hs, <- Hs, Hparse.
  destruct v; try reflexivity.
  now destruct (Hobj entries).
Qed.

(** A transcription request whose WAV file loads calls [transcribe_audio]
    exactly once, on the samples of the file and with the language of the
    request (["English"] when it names none).  It is answered by exactly
    one object: the text, or the message of the exception the call raised;
    either way the loop goes on with the next line. *)
Theorem transcription_request_answered (st : State) (line : pystr)
  (rest : list pystr) (request : list (pystr * json)) (wav : json)
  (audio : list Q) :
  json_loads (strip line) = inl (JObj request) ->
  dict_get (py "cmd") request = None ->
  dict_get (py "wav") request = Some wav ->
  truthy wav = true ->
  load_wav wav = inl audio ->
  let language :=
    match dict_get (py "language") request with
    | Some v => v
    | None => JStr (py "English")
    end in
  let called := transcribe_audio (model st) audio language in
  exists st',
    serve st (line :: rest) = serve st' rest
    /\ stdout st'
       = stdout st ++ [match snd called with
                       | inl text => Text text
                       | inr e => Error (Failure e)
                       end]
    /\ model st' = fst called
    /\ inference_calls st' = S (inference_calls st).
Proof.
  intros Hparse Hcmd Hwav Htrue Hload language called.
  destruct (parsed_not_blank _ _ Hparse) as (c & s & Hs).
  assert (Hstep : exists st',
             handle_line st line = (st', Continue)
             /\ stdout st'
                = stdout st ++ [match snd called with
                                | inl text => Text text
                                | inr e => Error (Failure e)
                                end]
             /\ model st' = fst called
             /\ inference_calls st' = S (inference_calls st)).
  { unfold handle_line. rewrite Hs, <- Hs, Hparse, Hcmd, Hwav. cbv zeta.
    rewrite Htrue, Hload. cbn [negb log model].
    subst called language.
    destruct (transcribe_audio (model st) audio _) as [model' [text|e]];
      eexists; (split; [reflexivity|]); cbn; repeat split. }
  destruct Hstep as (st' & Hh & Hrest).
  exists st'. split; [|exact Hrest]. now apply serve_continue.
Qed.


End Loop.

(** *** A concrete run *)

(** A string literal of a JSON document: the text between double quotes. *)
Definition quoted (s : string) : pystr := [34] ++ py s ++ [34].

(** [{"cmd": "ping"}], [{"cmd": "quit"}], [{"cmd": "reload"}],
    [{"wav": "/nonexistent.wav"}], [{"wav": "/stereo.wav"}],
    [{"wav": "/mono.wav"}] and [{"language": "English"}], each with its
    newline; the number [42]; a line that is not JSON; a line of blanks. *)
Definition ping_line : pystr :=
  [123] ++ quoted "cmd" ++ [58; 32] ++ quoted "ping" ++ [125; 10].
Definition quit_line : pystr :=
  [123] ++ quoted "cmd" ++ [58; 32] ++ quoted "quit" ++ [125; 10].
Definition reload_line : pystr :=
  [123] ++ quoted "cmd" ++ [58; 32] ++ quoted "reload" ++ [125; 10].
Definition missing_wav_line : pystr :=
  [123] ++ quoted "wav" ++ [58; 32] ++ quoted "/nonexistent.wav" ++ [125; 10].
Definition stereo_wav_line : pystr :=
  [123] ++ quoted "wav" ++ [58; 32] ++ quoted "/stereo.wav" ++ [125; 10].
Definition mono_wav_line : pystr :=
  [123] ++ quoted "wav" ++ [58; 32] ++ quoted "/mono.wav" ++ [125; 10].
Definition no_wav_line : pystr :=
  [123] ++ quoted "language" ++ [58; 32] ++ quoted "English" ++ [125; 10].
Definition number_line : pystr := py "42" ++ [10].
Definition garbage_line : pystr := py "{not json" ++ [10].
Definition blank_line : pystr := [32; 9; 13; 10].

(** What [json.loads] returns on the stripped lines above; every other
    text, the empty one included, stands for a document it rejects. *)
Definition demo_json_loads (s : pystr) : json + pystr :=
  if pystr_eqb s (strip ping_line) then
    inl (JObj [(py "cmd", JStr (py "ping"))])
  else if pystr_eqb s (strip quit_line) then
    inl (JObj [(py "cmd", JStr (py "quit"))])
  else if pystr_eqb s (strip reload_line) then
    inl (JObj [(py "cmd", JStr (py "reload"))])
  else if pystr_eqb s (strip missing_wav_line) then
    inl (JObj [(py "wav", JStr (py "/nonexistent.wav"))])
  else if pystr_eqb s (strip stereo_wav_line) then
    inl (JObj [(py "wav", JStr (py "/stereo.wav"))])
  else if pystr_eqb s (strip mono_wav_line) then
    inl (JObj [(py "wav", JStr (py "/mono.wav"))])
  else if pystr_eqb s (strip no_wav_line) then
    inl (JObj [(py "language", JStr (py "English"))])
  else if pystr_eqb s (strip number_line) then inl (JInt 42)
  else inr (py "Expecting value").

(** A file system with two WAV files: one in stereo, one that conforms
    (three samples: 0, 1 and -1). *)
Definition demo_wave_open (path : pystr) : WaveRead + pystr :=
  if pystr_eqb path (py "/stereo.wav") then
    inl {| nchannels := 2; sampwidth := 2; framerate := 16000; frames := [0; 0; 1; 0] |}
  else if pystr_eqb path (py "/mono.wav") then
    inl {| nchannels := 1; sampwidth := 2; framerate := 16000;
           frames := [0; 0; 1; 0; 255; 255] |}
  else inr (py "No such file or directory").

(** A model that counts its transcriptions. *)
Definition demo_transcribe (m : nat) (audio : list Q) (language : json)
  : nat * (pystr + exn) :=
  (S m, inl (py "hello")).

Definition demo_state : State nat :=
  {| model := 0%nat; stdout := []; stderr := []; inference_calls := 0 |}.

Lemma demo_json_loads_empty (v : json) : demo_json_loads [] <> inl v.
Proof. vm_compute. discriminate. Qed.

Lemma blank_line_ignored_witness :
  serve nat demo_json_loads demo_wave_open demo_transcribe demo_state
        [blank_line; ping_line]
  = serve nat demo_json_loads demo_wave_open demo_transcribe demo_state [ping_line].
Proof.
  apply (blank_line_ignored nat demo_json_loads demo_wave_open demo_transcribe
           demo_state blank_line [ping_line]).
  reflexivity.
Defined.

Lemma quit_ends_loop_without_output_witness :
  stdout nat
    (fst (serve nat demo_json_loads demo_wave_open demo_transcribe demo_state
                [quit_line; ping_line; missing_wav_line]))
  = [].
Proof.
  apply (quit_ends_loop_without_output nat demo_json_loads demo_json_loads_empty
           demo_wave_open demo_transcribe demo_state quit_line
           [ping_line; missing_wav_line] [(py "cmd", JStr (py "quit"))]);
    reflexivity.
Defined.


Lemma bad_wav_rejected_before_inference_witness :
  exists e st',
    serve nat demo_json_loads demo_wave_open demo_transcribe demo_state
          [stereo_wav_line; ping_line]
    = serve nat demo_json_loads demo_wave_open demo_transcribe st' [ping_line]
    /\ stdout nat st' = [Error (Failure e)]
    /\ stderr nat st' = [LogError e]
    /\ model nat st' = 0%nat
    /\ inference_calls nat st' = 0%nat.
Proof.
  apply (bad_wav_rejected_before_inference nat demo_json_loads demo_json_loads_empty
           demo_wave_open demo_transcribe demo_state stereo_wav_line [ping_line]
           [(py "wav", JStr (py "/stereo.wav"))] (py "/stereo.wav")).
  - reflexivity.
  - reflexivity.
  - reflexivity.
  - vm_compute. discriminate.
  - right. eexists. split; [reflexivity|]. left. simpl. lia.
Defined.

Lemma ping_answers_ready_witness :
  stdout nat
    (fst (serve nat demo_json_loads demo_wave_open demo_transcribe demo_state [ping_line]))
  = [StatusReady].
Proof.
  rewrite (ping_answers_ready nat demo_json_loads demo_json_loads_empty
             demo_wave_open demo_transcribe demo_state ping_line []).
  - reflexivity.
  - exists [(py "cmd", JStr (py "ping"))]. split; reflexivity.
Defined.

Lemma load_wav_samples_witness :
  exists p wf,
    JStr (py "/mono.wav") = JStr p /\ demo_wave_open p = inl wf
    /\ nchannels wf = 1 /\ sampwidth wf = 2 /\ framerate wf = 16000
    /\ 2 * lenZ (map (fun s => inject_Z s / 32768)%Q [0; 1; -1]) = lenZ (frames wf)
    /\ Forall (fun s => (-1 <= s)%Q /\ (s < 1)%Q)
              (map (fun s => inject_Z s / 32768)%Q [0; 1; -1]).
Proof.
  apply (load_wav_samples demo_wave_open (JStr (py "/mono.wav"))).
  - intros p wf. unfold demo_wave_open.
    destruct (pystr_eqb p (py "/stereo.wav")).
    + intros [= <-]. simpl. repeat constructor; lia.
    + destruct (pystr_eqb p (py "/mono.wav")); [|discriminate].
      intros [= <-]. simpl. repeat constructor; lia.
  - reflexivity.
Defined.

Lemma non_object_request_ends_server_witness :
  serve nat demo_json_loads demo_wave_open demo_transcribe demo_state
        [number_line; ping_line]
  = (demo_state, Crashed).
Proof.
  apply (non_object_request_ends_server nat demo_json_loads demo_json_loads_empty
           demo_wave_open demo_transcribe demo_state number_line [ping_line]
           (JInt 42)).
  - reflexivity.
  - discriminate.
Defined.

Lemma transcription_request_answered_witness :
  exists st',
    serve nat demo_json_loads demo_wave_open demo_transcribe demo_state
          [mono_wav_line; ping_line]
    = serve nat demo_json_loads demo_wave_open demo_transcribe st' [ping_line]
    /\ stdout nat st' = [Text (py "hello")]
    /\ model nat st' = 1%nat
    /\ inference_calls nat st' = 1%nat.
Proof.
  apply (transcription_request_answered nat demo_json_loads demo_json_loads_empty
           demo_wave_open demo_transcribe demo_state mono_wav_line [ping_line]
           [(py "wav", JStr (py "/mono.wav"))] (JStr (py "/mono.wav"))
           (map (fun s => inject_Z s / 32768)%Q [0; 1; -1]));
    reflexivity.
Defined.



(** The exchange of the specification: ready, a request for a missing
    file, a ping, then quit. *)
Example missing_wav_then_ping :
  let run := main nat demo_json_loads demo_wave_open demo_transcribe 0%nat false
                  [missing_wav_line; ping_line; quit_line; ping_line] in
  stdout nat (fst run)
  = [StatusReady;
     Error (Failure (LibraryError (py "No such file or directory")));
     StatusReady]
  /\ snd run = QuitReceived
  /\ inference_calls nat (fst run) = 0%nat.
Proof. vm_compute. repeat split. Qed.

(** A line that is valid JSON but not an object ends the process with an
    uncaught exception: nothing is printed for it, and the ping after it
    is never read. *)
Example non_object_line_crashes :
  serve nat demo_json_loads demo_wave_open demo_transcribe demo_state
        [number_line; ping_line]
  = (demo_state, Crashed).
Proof. reflexivity. Qed.

(** A request for a conforming file runs one transcription and is
    answered by its text. *)
Example conforming_wav_transcribed :
  let run := main nat demo_json_loads demo_wave_open demo_transcribe 0%nat false
                  [mono_wav_line; blank_line; garbage_line] in
  stdout nat (fst run)
  = [StatusReady; Text (py "hello"); Error (InvalidJSON (py "Expecting value"))]
  /\ snd run = EndOfInput
  /\ inference_calls nat (fst run) = 1%nat
  /\ model nat (fst run) = 1%nat.
Proof. vm_compute. repeat split. Qed.

End Server.

(* ====================================================================== *)
(** * The configuration classes and the configuration part of [load_model] *)
(* ====================================================================== *)

Module Config.

Import Util String Server PrimFloat.
Local Open Scope Z_scope.

(** A Python dict with [str] keys and decoded JSON values. *)
Definition dict : Type := list (pystr * json).

Definition has_key (key : pystr) (d : dict) : bool :=
  match dict_get key d with Some _ => true | None => false end.

(** [d.get(key, default)]. *)
Definition get (d : dict) (key : string) (default : json) : json :=
  match dict_get (py key) d with Some v => v | None => default end.

(** [d[key] = v]: the entry of the key is replaced where it stands, a new
    key is added at the end. *)
Fixpoint dict_set (key : pystr) (v : json) (d : dict) : dict :=
  match d with
  | [] => [(key, v)]
  | (k, x) :: d' =>
      if pystr_eqb k key then (k, v) :: d' else (k, x) :: dict_set key v d'
  end.

Record AudioEncoderConfig : Type := {
  num_mel_bins : json;
  encoder_layers : json;
  encoder_attention_heads : json;
  encoder_ffn_dim : json;
  d_model : json;
  scale_embedding : json;
  max_source_positions : json;
  n_window : json;
  output_dim : json;
  n_window_infer : json;
  conv_chunksize : json;
  downsample_hidden_size : json
}.

(** [AudioEncoderConfig.__init__(self, **kwargs)]. *)
Definition AudioEncoderConfig_init (kwargs : dict) : AudioEncoderConfig :=
  {| num_mel_bins := get kwargs "num_mel_bins" (JInt 128);
     encoder_layers := get kwargs "encoder_layers" (JInt 24);
     encoder_attention_heads := get kwargs "encoder_attention_heads" (JInt 16);
     encoder_ffn_dim := get kwargs "encoder_ffn_dim" (JInt 4096);
     d_model := get kwargs "d_model" (JInt 1024);
     scale_embedding := get kwargs "scale_embedding" (JBool false);
     max_source_positions := get kwargs "max_source_positions" (JInt 1500);
     n_window := get kwargs "n_window" (JInt 50);
     output_dim := get kwargs "output_dim" (JInt 2048);
     n_window_infer := get kwargs "n_window_infer" (JInt 800);
     conv_chunksize := get kwargs "conv_chunksize" (JInt 500);
     downsample_hidden_size := get kwargs "downsample_hidden_size" (JInt 480) |}.

Record TextConfig : Type := {
  vocab_size : json;
  hidden_size : json;
  intermediate_size : json;
  num_hidden_layers : json;
  num_attention_heads : json;
  num_key_value_heads : json;
  head_dim : json;
  rms_norm_eps : json;
  tie_word_embeddings : json;
  rope_theta : json
}.

(** The float64 values of the literals [1e-6] and [1000000.0]. *)
Definition float_1e_6 : PrimFloat.float := 0x1.0c6f7a0b5ed8dp-20%float.
Definition float_1000000 : PrimFloat.float := 1000000%float.

(** [TextConfig.__init__(self, **kwargs)]. *)
Definition TextConfig_init (kwargs : dict) : TextConfig :=
  {| vocab_size := get kwargs "vocab_size" (JInt 151936);
     hidden_size := get kwargs "hidden_size" (JInt 2048);
     intermediate_size := get kwargs "intermediate_size" (JInt 6144);
     num_hidden_layers := get kwargs "num_hidden_layers" (JInt 28);
     num_attention_heads := get kwargs "num_attention_heads" (JInt 16);
     num_key_value_heads := get kwargs "num_key_value_heads" (JInt 8);
     head_dim := get kwargs "head_dim" (JInt 128);
     rms_norm_eps := get kwargs "rms_norm_eps" (JFloat float_1e_6);
     tie_word_embeddings := get kwargs "tie_word_embeddings" (JBool true);
     rope_theta := get kwargs "rope_theta" (JFloat float_1000000) |}.

(** [__init__.__code__.co_varnames] of both classes: the names of the
    arguments and local variables of [def __init__(self, **kwargs)], whose
    body binds no other name. *)
Definition co_varnames : list pystr := [py "self"; py "kwargs"].

(** [{k: v for k, v in d.items() if k in co_varnames}]. *)
Definition known_arguments (d : dict) : dict :=
  filter (fun '(k, _) => existsb (fun name => pystr_eqb k name) co_varnames) d.

Inductive config_error : Type :=
| MultipleValuesForSelf   (** TypeError: the keyword [self] given in [**d] *)
| NotAnObject.            (** TypeError or AttributeError: a dict was expected *)

(** A class called with the keywords [**d]: the keyword [self] collides
    with the instance, every other keyword lands in [kwargs]. *)
Definition call_init {A : Type} (init : dict -> A) (d : dict) : A + config_error :=
  if has_key (py "self") d then inr MultipleValuesForSelf else inl (init d).

(** [ModelConfig]; a configuration that is neither [None] nor a dict is
    stored as it was passed. *)
Record ModelConfig : Type := {
  audio_config : AudioEncoderConfig + json;
  text_config : TextConfig + json;
  audio_token_id : json;
  support_languages : json
}.

(** One of the two branches of [ModelConfig.__init__]. *)
Definition sub_config {A : Type} (init : dict -> A) (given : json)
  : (A + json) + config_error :=
  match given with
  | JNull => inl (inl (init []))
  | JObj d =>
      match call_init init (known_arguments d) with
      | inl c => inl (inl c)
      | inr e => inr e
      end
  | other => inl (inr other)
  end.

(** [ModelConfig.__init__]; [None] is [JNull]. *)
Definition ModelConfig_init (audio text token languages : json)
  : ModelConfig + config_error :=
  match sub_config AudioEncoderConfig_init audio with
  | inr e => inr e
  | inl a =>
      match sub_config TextConfig_init text with
      | inr e => inr e
      | inl t =>
          inl {| audio_config := a;
                 text_config := t;
                 audio_token_id := token;
                 support_languages := if truthy languages then languages else JArr [] |}
      end
  end.

(** The configuration part of [load_model], from the decoded
    [config.json] on. *)
Definition load_config (config_json : json) : ModelConfig + config_error :=
  match config_json with
  | JObj config_dict =>
      let merged :=
        match dict_get (py "thinker_config") config_dict with
        | None => inl config_dict
        | Some (JObj thinker) =>
            inl (dict_set (py "audio_token_id") (get thinker "audio_token_id" (JInt 151676))
                   (dict_set (py "text_config") (get thinker "text_config" (JObj []))
                      (dict_set (py "audio_config") (get thinker "audio_config" (JObj []))
                         config_dict)))
        | Some _ => inr NotAnObject
        end in
      match merged with
      | inr e => inr e
      | inl config_dict =>
          ModelConfig_init (get config_dict "audio_config" JNull)
                           (get config_dict "text_config" JNull)
                           (get config_dict "audio_token_id" (JInt 151676))
                           (get config_dict "support_languages" (JArr []))
      end
  | _ => inr NotAnObject
  end.

Lemma known_arguments_keys (d : dict) (k : pystr) (v : json) :
  In (k, v) (known_arguments d) -> k = py "self" \/ k = py "kwargs".
Proof.
  unfold known_arguments. intros H. apply filter_In in H. destruct H as [_ H].
  cbn [co_varnames existsb] in H. rewrite !orb_true_iff in H.
  destruct H as [H|[H|H]]; [left|right|discriminate]; now apply pystr_eqb_eq.
Qed.

Lemma dict_get_absent (d : dict) (key : pystr) :
  (forall k v, In (k, v) d -> pystr_eqb k key = false) -> dict_get key d = None.
Proof.
  induction d as [|[k v] d IH]; intros H; [reflexivity|].
  cbn [dict_get]. rewrite (H k v) by now left.
  apply IH. intros k' v' Hin. apply (H k' v'). now right.
Qed.

Lemma get_known_arguments (d : dict) (key : string) (default : json) :
  pystr_eqb (py "self") (py key) = false ->
  pystr_eqb (py "kwargs") (py key) = false ->
  get (known_arguments d) key default = default.
Proof.
  intros Hs Hk. unfold get. rewrite dict_get_absent; [reflexivity|].
  intros k v Hin. destruct (known_arguments_keys _ _ _ Hin) as [-> | ->]; assumption.
Qed.

Lemma audio_defaults (d : dict) :
  AudioEncoderConfig_init (known_arguments d) = AudioEncoderConfig_init [].
Proof.
  unfold AudioEncoderConfig_init.
  rewrite !get_known_arguments by reflexivity. reflexivity.
Qed.

Lemma text_defaults (d : dict) :
  TextConfig_init (known_arguments d) = TextConfig_init [].
Proof.
  unfold TextConfig_init.
  rewrite !get_known_arguments by reflexivity. reflexivity.
Qed.

Lemma sub_config_defaults {A : Type} (init : dict -> A) (given : json) (c : A + json) :
  (forall d, init (known_arguments d) = init []) ->
  sub_config init given = inl c ->
  c = inl (init [])
  \/ exists v, c = inr v /\ given = v /\ v <> JNull /\ forall d, v <> JObj d.
Proof.
  intros Hdef H. unfold sub_config, call_init in H.
  destruct given as [| | | | | |d];
    try (injection H as <-; right; eexists; repeat split; discriminate).
  - injection H as <-. now left.
  - destruct (has_key (py "self") (known_arguments d)); [discriminate|].
    injection H as <-. left. now rewrite Hdef.
Qed.

(** No [config.json] changes a hyperparameter of the audio encoder or of
    the text decoder: whenever [load_model] gets a configuration object,
    its audio and text configurations carry the default of every field (or
    are the raw value, when [config.json] gives something that is neither
    an object nor null), because the filter on [co_varnames] lets through
    the keys [self] and [kwargs] only.  In particular the chunk size
    stays at 2 * 50 frames and [n_window_infer] at 800. *)
Theorem config_file_cannot_set_hyperparameters (config_json : json) (cfg : ModelConfig) :
  load_config config_json = inl cfg ->
  (audio_config cfg = inl (AudioEncoderConfig_init [])
   \/ exists v, audio_config cfg = inr v /\ v <> JNull /\ forall d, v <> JObj d)
  /\ (text_config cfg = inl (TextConfig_init [])
      \/ exists v, text_config cfg = inr v /\ v <> JNull /\ forall d, v <> JObj d)
  /\ n_window (AudioEncoderConfig_init []) = JInt (Encoder.n_window Encoder.default_config)
  /\ n_window_infer (AudioEncoderConfig_init [])
     = JInt (Encoder.n_window_infer Encoder.default_config).
Proof.
  intros H.
  assert (Hinit : forall a t token langs,
             ModelConfig_init a t token langs = inl cfg ->
             (audio_config cfg = inl (AudioEncoderConfig_init [])
              \/ exists v, audio_config cfg = inr v /\ v <> JNull /\ forall d, v <> JObj d)
             /\ (text_config cfg = inl (TextConfig_init [])
                 \/ exists v, text_config cfg = inr v /\ v <> JNull /\ forall d, v <> JObj d)).
  { intros a t token langs Hc. unfold ModelConfig_init in Hc.
    destruct (sub_config AudioEncoderConfig_init a) as [ca|] eqn:Ea; [|discriminate].
    destruct (sub_config TextConfig_init t) as [ct|] eqn:Et; [|discriminate].
    injection Hc as <-. cbn [audio_config text_config].
    split.
    - destruct (sub_config_defaults _ _ _ audio_defaults Ea) as [->|(v & -> & _ & Hv)];
        [now left|right; eauto].
    - destruct (sub_config_defaults _ _ _ text_defaults Et) as [->|(v & -> & _ & Hv)];
        [now left|right; eauto]. }
  split; [|split; [|split; reflexivity]];
    (unfold load_config in H;
     destruct config_json as [| | | | | |config_dict]; try discriminate;
     destruct (dict_get (py "thinker_config") config_dict) as [[| | | | | |thinker]|];
     try discriminate; apply Hinit in H; apply H).
Qed.

(** A configuration object with the key [self], in the audio or in the text
    part, makes [ModelConfig] raise. *)
Example config_key_self_raises :
  load_config (JObj [(py "audio_config", JObj [(py "self", JInt 1)])])
  = inr MultipleValuesForSelf.
Proof. reflexivity. Qed.

(** A configuration file that asks for a window of 100 frames gets 50. *)
Example config_n_window_ignored :
  exists cfg,
    load_config
      (JObj [(py "thinker_config",
              JObj [(py "audio_config", JObj [(py "n_window", JInt 100)])])])
    = inl cfg
    /\ audio_config cfg = inl (AudioEncoderConfig_init [])
    /\ n_window (AudioEncoderConfig_init []) = JInt 50.
Proof. eexists. split; [reflexivity|]. split; reflexivity. Qed.

Lemma config_file_cannot_set_hyperparameters_witness :
  exists cfg,
    load_config
      (JObj [(py "thinker_config",
              JObj [(py "audio_config", JObj [(py "n_window", JInt 100)])])])
    = inl cfg
    /\ audio_config cfg = inl (AudioEncoderConfig_init []).
Proof.
  eexists. split; [reflexivity|].
  destruct (config_file_cannot_set_hyperparameters
              (JObj [(py "thinker_config",
                      JObj [(py "audio_config", JObj [(py "n_window", JInt 100)])])])
              _ eq_refl) as ([Ha|(v & Ha & _)] & _).
  - exact Ha.
  - discriminate Ha.
Defined.

End Config.

(* ====================================================================== *)
(** * Weight names ([Qwen3ASRModel.sanitize]) and the language of the prompt *)
(* ====================================================================== *)

Module Dict.

Import Util Server.
Local Open Scope Z_scope.

(** A Python dict with [str] keys, in insertion order. *)
Fixpoint lookup {V : Type} (key : pystr) (d : list (pystr * V)) : option V :=
  match d with
  | [] => None
  | (k, v) :: d' => if pystr_eqb k key then Some v else lookup key d'
  end.

(** [d[key] = v]. *)
Fixpoint store {V : Type} (key : pystr) (v : V) (d : list (pystr * V))
  : list (pystr * V) :=
  match d with
  | [] => [(key, v)]
  | (k, x) :: d' =>
      if pystr_eqb k key then (k, v) :: d' else (k, x) :: store key v d'
  end.

Lemma pystr_eqb_refl (a : pystr) : pystr_eqb a a = true.
Proof. now apply pystr_eqb_eq. Qed.

Lemma pystr_eqb_neq (a b : pystr) : a <> b -> pystr_eqb a b = false.
Proof.
  intros H. destruct (pystr_eqb a b) eqn:E; [|reflexivity].
  now apply pystr_eqb_eq in E.
Qed.

Lemma lookup_store_same {V : Type} (key : pystr) (v : V) (d : list (pystr * V)) :
  lookup key (store key v d) = Some v.
Proof.
  induction d as [|[k x] d IH]; cbn [store lookup].
  - now rewrite pystr_eqb_refl.
  - destruct (pystr_eqb k key) eqn:E; cbn [lookup]; now rewrite E.
Qed.

Lemma lookup_store_other {V : Type} (key key' : pystr) (v : V) (d : list (pystr * V)) :
  key <> key' -> lookup key' (store key v d) = lookup key' d.
Proof.
  intros Hne. induction d as [|[k x] d IH]; cbn [store lookup].
  - now rewrite pystr_eqb_neq.
  - destruct (pystr_eqb k key) eqn:E; cbn [lookup].
    + apply pystr_eqb_eq in E. subst k. now rewrite pystr_eqb_neq.
    + now rewrite IH.
Qed.

Lemma lookup_none {V : Type} (key : pystr) (d : list (pystr * V)) :
  lookup key d = None <-> ~ In key (map fst d).
Proof.
  induction d as [|[k x] d IH]; cbn [lookup map fst In]; [tauto|].
  destruct (pystr_eqb k key) eqn:E.
  - apply pystr_eqb_eq in E. split; [discriminate|]. tauto.
  - rewrite IH. split; [|tauto].
    intros H [Hk|Hin]; [|tauto]. subst. now rewrite pystr_eqb_refl in E.
Qed.

Lemma store_new {V : Type} (key : pystr) (v : V) (d : list (pystr * V)) :
  ~ In key (map fst d) -> store key v d = d ++ [(key, v)].
Proof.
  induction d as [|[k x] d IH]; cbn [store map fst In app]; [reflexivity|].
  intros H. rewrite pystr_eqb_neq by tauto. now rewrite IH by tauto.
Qed.

Lemma keys_store {V : Type} (key : pystr) (v : V) (d : list (pystr * V)) :
  map fst (store key v d)
  = match lookup key d with
    | Some _ => map fst d
    | None => map fst d ++ [key]
    end.
Proof.
  induction d as [|[k x] d IH]; cbn [store lookup map fst app]; [reflexivity|].
  destruct (pystr_eqb k key) eqn:E; cbn [map fst]; [reflexivity|].
  rewrite IH. now destruct (lookup key d).
Qed.

Lemma in_store {V : Type} (key : pystr) (v : V) (d : list (pystr * V)) (k : pystr) (x : V) :
  In (k, x) (store key v d) -> (k = key /\ x = v) \/ In (k, x) d.
Proof.
  induction d as [|[k0 x0] d IH]; cbn [store In].
  - intros [[= <- <-]|[]]. now left.
  - destruct (pystr_eqb k0 key) eqn:E; cbn [In].
    + apply pystr_eqb_eq in E. subst k0.
      intros [[= <- <-]|H]; [now left|right; now right].
    + intros [H|H]; [right; now left|].
      destruct (IH H) as [?|?]; [now left|right; now right].
Qed.

Lemma NoDup_store {V : Type} (key : pystr) (v : V) (d : list (pystr * V)) :
  NoDup (map fst d) -> NoDup (map fst (store key v d)).
Proof.
  intros H. rewrite keys_store. destruct (lookup key d) eqn:E; [exact H|].
  apply lookup_none in E.
  apply NoDup_rev in H. rewrite <- (rev_involutive (map fst d ++ [key])).
  apply NoDup_rev. rewrite rev_app_distr. cbn [rev app].
  constructor; [|exact H]. now rewrite <- in_rev.
Qed.

End Dict.

Module Weights.

Import Util String Server Dict.
Local Open Scope Z_scope.

(** [s.startswith(prefix)]. *)
Fixpoint startswith (s prefix : pystr) : bool :=
  match prefix with
  | [] => true
  | p :: prefix' =>
      match s with
      | [] => false
      | c :: s' => (c =? p) && startswith s' prefix'
      end
  end.

(** [sub in s]. *)
Fixpoint contains (s sub : pystr) : bool :=
  startswith s sub
  || match s with
     | [] => false
     | _ :: s' => contains s' sub
     end.

Section Sanitize.

(** An array, the number of its axes ([len(v.shape)]) and
    [v.transpose(0, 2, 3, 1)]. *)
Variable Tensor : Type.
Variable ndim : Tensor -> Z.
Variable transpose_0231 : Tensor -> Tensor.

Definition is_formatted (weights : list (pystr * Tensor)) : bool :=
  negb (existsb (fun '(k, _) => startswith k (py "thinker.")) weights).

(** The name under which a tensor is kept. *)
Definition strip_thinker (k : pystr) : pystr :=
  if startswith k (py "thinker.") then skipn (List.length (py "thinker.")) k else k.

(** The value kept under the name [k] (already stripped). *)
Definition convert (formatted : bool) (k : pystr) (v : Tensor) : Tensor :=
  if negb formatted && contains k (py "conv2d") && contains k (py "weight")
     && (ndim v =? 4)
  then transpose_0231 v else v.

(** The body of the loop of [sanitize]. *)
Definition sanitize_step (formatted : bool) (sanitized : list (pystr * Tensor))
  (entry : pystr * Tensor) : list (pystr * Tensor) :=
  let k := strip_thinker (fst entry) in
  if pystr_eqb k (py "lm_head.weight") then sanitized
  else store k (convert formatted k (snd entry)) sanitized.

Definition sanitize (weights : list (pystr * Tensor)) : list (pystr * Tensor) :=
  fold_left (sanitize_step (is_formatted weights)) weights [].

Lemma sanitize_fold_invariant (formatted : bool) (weights acc : list (pystr * Tensor)) :
  lookup (py "lm_head.weight") acc = None ->
  NoDup (map fst acc) ->
  let out := fold_left (sanitize_step formatted) weights acc in
  lookup (py "lm_head.weight") out = None
  /\ NoDup (map fst out)
  /\ forall k v, In (k, v) out ->
       In (k, v) acc
       \/ exists k0 v0, In (k0, v0) weights
                        /\ k = strip_thinker k0 /\ v = convert formatted k v0.
Proof.
  revert acc. induction weights as [|[k0 v0] weights IH]; intros acc Hl Hn; cbn [fold_left].
  { repeat split; auto. }
  unfold sanitize_step at 2 4 6. cbn [fst snd].
  destruct (pystr_eqb (strip_thinker k0) (py "lm_head.weight")) eqn:E.
  - destruct (IH acc Hl Hn) as (H1 & H2 & H3).
    split; [exact H1|]. split; [exact H2|].
    intros k v Hin. destruct (H3 k v Hin) as [?|(k1 & v1 & Hin1 & Hk & Hv)]; [now left|].
    right. exists k1, v1. split; [now right|]. now split.
  - assert (Hne : strip_thinker k0 <> py "lm_head.weight").
    { intros Heq. rewrite Heq, pystr_eqb_refl in E. discriminate. }
    destruct (IH (store (strip_thinker k0) (convert formatted (strip_thinker k0) v0) acc))
      as (H1 & H2 & H3).
    + now rewrite lookup_store_other.
    + now apply NoDup_store.
    + split; [exact H1|]. split; [exact H2|].
      intros k v Hin. destruct (H3 k v Hin) as [Hs|(k1 & v1 & Hin1 & Hk & Hv)].
      * apply in_store in Hs. destruct Hs as [[-> ->]|Hs]; [|now left].
        right. exists k0, v0. split; [now left|]. now split.
      * right. exists k1, v1. split; [now right|]. now split.
Qed.

Lemma sanitize_fold_formatted (weights acc : list (pystr * Tensor)) :
  NoDup (map fst acc ++ map fst weights) ->
  (forall k v, In (k, v) weights -> startswith k (py "thinker.") = false) ->
  fold_left (sanitize_step true) weights acc
  = acc ++ filter (fun '(k, _) => negb (pystr_eqb k (py "lm_head.weight"))) weights.
Proof.
  revert acc. induction weights as [|[k0 v0] weights IH]; intros acc Hn Hp;
    cbn [fold_left filter]; [now rewrite app_nil_r|].
  assert (Hk0 : strip_thinker k0 = k0).
  { unfold strip_thinker. now rewrite (Hp k0 v0) by now left. }
  assert (Hp' : forall k v, In (k, v) weights -> startswith k (py "thinker.") = false).
  { intros k v Hin. apply (Hp k v). now right. }
  unfold sanitize_step at 2. cbn [fst snd]. rewrite Hk0.
  cbn [map fst] in Hn.
  destruct (pystr_eqb k0 (py "lm_head.weight")); cbn [negb].
  - apply IH; [|exact Hp']. now apply NoDup_remove_1 in Hn.
  - unfold convert. cbn [negb andb].
    pose proof (NoDup_remove_2 _ _ _ Hn) as Hnotin.
    rewrite store_new by (intros Hin; apply Hnotin, in_or_app; now left).
    rewrite IH; [now rewrite <- app_assoc|  |exact Hp'].
    rewrite map_app. cbn [map fst]. rewrite <- app_assoc. exact Hn.
Qed.

(** Whatever the checkpoint holds, [sanitize] never keeps a tensor named
    [lm_head.weight] (with or without the [thinker.] prefix), keeps each
    name once, and every tensor it keeps comes from a tensor of the
    checkpoint: under that tensor's name without its [thinker.] prefix,
    and with the value as [convert] leaves it. *)
Theorem sanitize_drops_lm_head (weights : list (pystr * Tensor)) :
  lookup (py "lm_head.weight") (sanitize weights) = None
  /\ NoDup (map fst (sanitize weights))
  /\ forall k v, In (k, v) (sanitize weights) ->
       exists k0 v0, In (k0, v0) weights
                     /\ k = strip_thinker k0
                     /\ v = convert (is_formatted weights) k v0.
Proof.
  destruct (sanitize_fold_invariant (is_formatted weights) weights [] eq_refl (NoDup_nil _))
    as (H1 & H2 & H3).
  split; [exact H1|]. split; [exact H2|].
  intros k v Hin. destruct (H3 k v Hin) as [[]|H]. exact H.
Qed.

(** A checkpoint already in the format of the model (no name starts with
    [thinker.]) passes through [sanitize] unchanged, in its order and with
    its values, less the entry [lm_head.weight]: no tensor is transposed. *)
Theorem sanitize_formatted_unchanged (weights : list (pystr * Tensor)) :
  NoDup (map fst weights) ->
  (forall k v, In (k, v) weights -> startswith k (py "thinker.") = false) ->
  sanitize weights
  = filter (fun '(k, _) => negb (pystr_eqb k (py "lm_head.weight"))) weights.
Proof.
  intros Hn Hp. unfold sanitize.
  assert (Hf : is_formatted weights = true).
  { unfold is_formatted. apply negb_true_iff.
    destruct (existsb _ weights) eqn:E; [|reflexivity].
    apply existsb_exists in E. destruct E as ([k v] & Hin & Hs).
    now rewrite (Hp k v Hin) in Hs. }
  rewrite Hf. now rewrite sanitize_fold_formatted.
Qed.

End Sanitize.

(** A checkpoint in the original layout: the convolution weight is
    transposed, the output head is dropped, the prefix goes. *)
Example sanitize_thinker_checkpoint :
  sanitize (list Z) (fun shape => lenZ shape)
           (fun shape => match shape with
                         | [a; b; c; d] => [a; c; d; b]
                         | _ => shape
                         end)
           [(py "thinker.audio_tower.conv2d1.weight", [480; 1; 3; 3]);
            (py "thinker.audio_tower.conv2d1.bias", [480]);
            (py "thinker.lm_head.weight", [151936; 2048]);
            (py "thinker.model.norm.weight", [2048])]
  = [(py "audio_tower.conv2d1.weight", [480; 3; 3; 1]);
     (py "audio_tower.conv2d1.bias", [480]);
     (py "model.norm.weight", [2048])].
Proof. reflexivity. Qed.

Lemma sanitize_formatted_unchanged_witness :
  sanitize (list Z) (fun shape => lenZ shape) (fun shape => shape)
           [(py "audio_tower.conv2d1.weight", [480; 3; 3; 1]);
            (py "lm_head.weight", [151936; 2048]);
            (py "model.norm.weight", [2048])]
  = [(py "audio_tower.conv2d1.weight", [480; 3; 3; 1]);
     (py "model.norm.weight", [2048])].
Proof.
  apply (sanitize_formatted_unchanged (list Z) (fun shape => lenZ shape)
           (fun shape => shape)).
  - repeat constructor; cbn; intuition discriminate.
  - intros k v [[= <- <-]|[[= <- <-]|[[= <- <-]|[]]]]; reflexivity.
Defined.

End Weights.

Module Prompt.

Import Util String Server Dict.
Local Open Scope Z_scope.

Section Language.

(** [str.lower]. *)
Variable lower : pystr -> pystr.

(** [{lang.lower(): lang for lang in supported}]. *)
Definition supported_lower (supported : list pystr) : list (pystr * pystr) :=
  fold_left (fun d lang => store (lower lang) lang d) supported [].

(** [lang_name] of [transcribe_audio]; [supported] is
    [model.config.support_languages or []]. *)
Definition lang_name (supported : list pystr) (language : pystr) : pystr :=
  match lookup (lower language) (supported_lower supported) with
  | Some lang => lang
  | None => language
  end.

Lemma find_append {A : Type} (f : A -> bool) (l1 l2 : list A) :
  find f (l1 ++ l2)
  = match find f l1 with
    | Some x => Some x
    | None => find f l2
    end.
Proof.
  induction l1 as [|a l1 IH]; cbn [app find]; [reflexivity|].
  now destruct (f a).
Qed.

Lemma lookup_supported_from (supported : list pystr) (d : list (pystr * pystr))
  (key : pystr) :
  lookup key (fold_left (fun d lang => store (lower lang) lang d) supported d)
  = match find (fun lang => pystr_eqb (lower lang) key) (rev supported) with
    | Some lang => Some lang
    | None => lookup key d
    end.
Proof.
  revert d. induction supported as [|lang supported IH]; intros d; [reflexivity|].
  cbn [fold_left rev]. rewrite IH, find_append.
  destruct (find _ (rev supported)); [reflexivity|].
  cbn [find]. destruct (pystr_eqb (lower lang) key) eqn:E.
  - apply pystr_eqb_eq in E. subst key. now rewrite lookup_store_same.
  - rewrite lookup_store_other; [reflexivity|].
    intros Heq. rewrite Heq, pystr_eqb_refl in E. discriminate.
Qed.

(** The language written in the prompt: the supported language that equals
    the requested one up to letter case (the last one in the list, if
    several do), spelled as the model's configuration spells it; a language
    that matches none is not rejected but written as the caller gave it. *)
Theorem language_matched_ignoring_case (supported : list pystr) (language : pystr) :
  (exists before after,
      supported = before ++ lang_name supported language :: after
      /\ lower (lang_name supported language) = lower language
      /\ forall lang, In lang after -> lower lang <> lower language)
  \/ (lang_name supported language = language
      /\ forall lang, In lang supported -> lower lang <> lower language).
Proof.
  unfold lang_name, supported_lower. rewrite lookup_supported_from. cbn [lookup].
  destruct (find _ (rev supported)) as [lang|] eqn:E.
  - left.
    assert (Hsplit : forall l x,
               find (fun lang => pystr_eqb (lower lang) (lower language)) l = Some x ->
               exists l1 l2, l = l1 ++ x :: l2
                             /\ lower x = lower language
                             /\ forall y, In y l1 -> lower y <> lower language).
    { induction l as [|a l IH]; intros x Hx; [discriminate|]. cbn [find] in Hx.
      destruct (pystr_eqb (lower a) (lower language)) eqn:Ea.
      - injection Hx as <-. exists [], l. apply pystr_eqb_eq in Ea.
        repeat split; [exact Ea|intros y []].
      - destruct (IH x Hx) as (l1 & l2 & -> & Hl & Hnone).
        exists (a :: l1), l2. repeat split; [exact Hl|].
        intros y [<-|Hy]; [|now apply Hnone].
        intros Heq. rewrite Heq, pystr_eqb_refl in Ea. discriminate. }
    destruct (Hsplit _ _ E) as (l1 & l2 & Hrev & Hl & Hnone).
    exists (rev l2), (rev l1). repeat split; [|exact Hl|].
    + rewrite <- (rev_involutive supported), Hrev, rev_app_distr.
      cbn [rev]. now rewrite <- app_assoc.
    + intros y Hy. apply Hnone. now apply in_rev.
  - right. split; [reflexivity|].
    intros y Hy Heq.
    pose proof (find_none _ _ E y ltac:(now apply -> in_rev)) as Hf.
    cbv beta in Hf. rewrite Heq, pystr_eqb_refl in Hf. discriminate.
Qed.

End Language.

(** [str.lower] on ASCII letters. *)
Definition ascii_lower (s : pystr) : pystr :=
  map (fun c => if (65 <=? c) && (c <=? 90) then c + 32 else c) s.

Example language_english :
  lang_name ascii_lower [py "Chinese"; py "English"; py "German"] (py "ENGLISH")
  = py "English"
  /\ lang_name ascii_lower [py "Chinese"; py "English"; py "German"] (py "Klingon")
     = py "Klingon".
Proof. split; reflexivity. Qed.

End Prompt.



(* ===================================================================== *)
(** ** The Hann windows of the mel comparison script
       (compare_mel.py, [compute_mel_manual] and the window comparison) *)
(* ===================================================================== *)

Module Hann.

Import String.
Local Open Scope R_scope.

(** [numpy.hanning(M)]: with [n = arange(1 - M, M, 2)], the samples
    [0.5 + 0.5 * cos(pi * n / (M - 1))]; the empty array for [M < 1] and
    [ones(1)] for [M = 1].  Real numbers stand for the float64 samples. *)
Definition hanning_sample (M i : nat) : R :=
  0.5 + 0.5 * cos (PI * (1 - INR M + 2 * INR i) / (INR M - 1)).

Definition np_hanning (M : nat) : list R :=
  match M with
  | O => []
  | S O => [1]
  | _ => map (hanning_sample M) (seq 0 M)
  end.

Definition N_FFT : nat := 400.

(** The window of [compute_mel_manual]: [np.hanning(n_fft)] when
    [hann_type == "periodic"], [np.hanning(n_fft + 1)[:-1]] otherwise.  The
    cast to float32 is left out: it moves a sample by less than one part
    in ten million. *)
Definition window (hann_type : String.string) (n_fft : nat) : list R :=
  if String.eqb hann_type "periodic"%string then np_hanning n_fft
  else removelast (np_hanning (n_fft + 1)).

(** [hann_numpy] and [hann_vdsp] of the window comparison. *)
Definition hann_numpy : list R := np_hanning N_FFT.
Definition hann_vdsp : list R := removelast (np_hanning (N_FFT + 1)).

Lemma np_hanning_map (M : nat) :
  (2 <= M)%nat -> np_hanning M = map (hanning_sample M) (seq 0 M).
Proof. destruct M as [|[|M]]; [lia|lia|reflexivity]. Qed.

Lemma INR_lit (n : nat) : INR n = IZR (Z.of_nat n).
Proof. apply INR_IZR_INZ. Qed.

(** [cos x <= 1 - x^2/2 + x^4/24] on [-2, 2]. *)
Lemma cos_upper (a : R) :
  -2 <= a <= 2 -> cos a <= 1 - a * a / 2 + a * a * a * a / 24.
Proof.
  intros [Hlo Hhi].
  destruct (pre_cos_bound a 0 Hlo Hhi) as [_ Hub].
  unfold cos_approx, cos_term in Hub. simpl in Hub.
  lra.
Qed.

Lemma PI_gt_3 : 3 < PI.
Proof. pose proof PI2_3_2. lra. Qed.

(** Away from [0] by at least [PI / 399], within [-PI, PI], the cosine
    stays below [1 - 2 / 100000]. *)
Lemma cos_far_from_zero (x : R) :
  PI / 399 <= Rabs x <= PI -> cos x <= 1 - 2 / 100000.
Proof.
  intros [Hlo Hhi].
  pose proof PI_gt_3 as H3. pose proof PI_4 as H4.
  assert (Hc : cos x = cos (Rabs x)).
  { unfold Rabs. destruct (Rcase_abs x); [now rewrite cos_neg|reflexivity]. }
  rewrite Hc.
  apply Rle_trans with (r2 := cos (3 / 399)).
  - apply cos_decr_1; lra.
  - pose proof (cos_upper (3 / 399) ltac:(lra)). lra.
Qed.

Lemma hanning_400_arg (i : nat) :
  (i < 400)%nat ->
  let x := PI * (1 - INR 400 + 2 * INR i) / (INR 400 - 1) in
  PI / 399 <= Rabs x <= PI.
Proof.
  intros Hi x. unfold x.
  rewrite (INR_lit 400). change (Z.of_nat 400) with 400%Z.
  pose proof PI_RGT_0 as Hpi.
  assert (Hi0 : 0 <= INR i) by apply pos_INR.
  assert (Hi399 : INR i <= 399).
  { replace 399 with (INR 399) by (rewrite INR_lit; reflexivity).
    apply le_INR. lia. }
  destruct (Nat.le_gt_cases i 199) as [Hle|Hgt].
  - assert (INR i <= 199).
    { replace 199 with (INR 199) by (rewrite INR_lit; reflexivity).
      apply le_INR. exact Hle. }
    replace (PI * (1 - 400 + 2 * INR i) / (400 - 1))
      with (- (PI * ((399 - 2 * INR i) / 399))) by (field; lra).
    rewrite Rabs_Ropp, Rabs_right.
    + split.
      * apply Rmult_le_reg_r with (r := 399); [lra|].
        replace (PI / 399 * 399) with PI by (field; lra).
        replace (PI * ((399 - 2 * INR i) / 399) * 399)
          with (PI * (399 - 2 * INR i)) by (field; lra).
        nra.
      * replace PI with (PI * 1) at 2 by lra.
        apply Rmult_le_compat_l; [lra|].
        apply Rmult_le_reg_r with (r := 399); [lra|].
        replace ((399 - 2 * INR i) / 399 * 399) with (399 - 2 * INR i) by (field; lra).
        lra.
    + apply Rle_ge. apply Rmult_le_pos; [lra|].
      apply Rmult_le_reg_r with (r := 399); [lra|].
      replace ((399 - 2 * INR i) / 399 * 399) with (399 - 2 * INR i) by (field; lra).
      lra.
  - assert (200 <= INR i).
    { replace 200 with (INR 200) by (rewrite INR_lit; reflexivity).
      apply le_INR. lia. }
    replace (PI * (1 - 400 + 2 * INR i) / (400 - 1))
      with (PI * ((2 * INR i - 399) / 399)) by (field; lra).
    rewrite Rabs_right.
    + split.
      * apply Rmult_le_reg_r with (r := 399); [lra|].
        replace (PI / 399 * 399) with PI by (field; lra).
        replace (PI * ((2 * INR i - 399) / 399) * 399)
          with (PI * (2 * INR i - 399)) by (field; lra).
        nra.
      * replace PI with (PI * 1) at 2 by lra.
        apply Rmult_le_compat_l; [lra|].
        apply Rmult_le_reg_r with (r := 399); [lra|].
        replace ((2 * INR i - 399) / 399 * 399) with (2 * INR i - 399) by (field; lra).
        lra.
    + apply Rle_ge. apply Rmult_le_pos; [lra|].
      apply Rmult_le_reg_r with (r := 399); [lra|].
      replace ((2 * INR i - 399) / 399 * 399) with (2 * INR i - 399) by (field; lra).
      lra.
Qed.

Lemma hanning_401_centre : hanning_sample 401 200 = 1.
Proof.
  unfold hanning_sample.
  rewrite (INR_lit 401), (INR_lit 200).
  change (Z.of_nat 401) with 401%Z. change (Z.of_nat 200) with 200%Z.
  replace (PI * (1 - 401 + 2 * 200) / (401 - 1)) with 0 by (field; lra).
  rewrite cos_0. lra.
Qed.

(** C2 on the code.  The branch [hann_type == "periodic"] takes
    [np.hanning(400)], the symmetric window: every one of its samples is
    at most [1 - 1/100000], so its maximum is not 1.0 (and cannot round to
    1.0 in float32).  The window whose maximum is exactly 1, the periodic
    one, is [np.hanning(401)[:-1]], which the code computes in the other
    branch. *)
Theorem periodic_mode_window_below_one :
  List.length (window "periodic"%string 400) = 400%nat
  /\ (forall w, In w (window "periodic"%string 400) -> w <= 1 - 1 / 100000)
  /\ (forall w, In w hann_numpy -> w <= 1 - 1 / 100000)
  /\ In 1 (window "symmetric"%string 400)
  /\ (forall w, In w (window "symmetric"%string 400) -> w <= 1).
Proof.
  assert (Hper : window "periodic"%string 400 = map (hanning_sample 400) (seq 0 400)).
  { unfold window. cbn [String.eqb Ascii.eqb Bool.eqb].
    change (String.eqb "periodic"%string "periodic"%string) with true. cbv iota.
    apply np_hanning_map. lia. }
  assert (Hsym : window "symmetric"%string 400 = map (hanning_sample 401) (seq 0 400)).
  { unfold window.
    change (String.eqb "symmetric"%string "periodic"%string) with false. cbv iota.
    rewrite np_hanning_map by lia.
    replace (400 + 1)%nat with (S 400) by lia.
    rewrite seq_S, map_app. cbn [map]. apply removelast_last. }
  assert (Hbelow : forall w, In w (map (hanning_sample 400) (seq 0 400)) ->
                             w <= 1 - 1 / 100000).
  { intros w Hw. apply in_map_iff in Hw. destruct Hw as (i & <- & Hi).
    apply in_seq in Hi. unfold hanning_sample.
    pose proof (cos_far_from_zero _ (hanning_400_arg i ltac:(lia))). lra. }
  split; [|split; [|split; [|split]]].
  - now rewrite Hper, length_map, length_seq.
  - now rewrite Hper.
  - unfold hann_numpy, N_FFT. now rewrite np_hanning_map by lia.
  - rewrite Hsym. rewrite <- hanning_401_centre.
    apply in_map, in_seq. lia.
  - rewrite Hsym. intros w Hw. apply in_map_iff in Hw. destruct Hw as (i & <- & _).
    unfold hanning_sample.
    pose proof (COS_bound (PI * (1 - INR 401 + 2 * INR i) / (INR 401 - 1))). lra.
Qed.

Lemma np_hanning_facts (M : nat) :
  List.length (np_hanning M) = M
  /\ forall w, In w (np_hanning M) -> 0 <= w <= 1.
Proof.
  destruct M as [|[|M]].
  - split; [reflexivity|intros w []].
  - split; [reflexivity|]. intros w [<-|[]]. lra.
  - change (np_hanning (S (S M))) with (map (hanning_sample (S (S M))) (seq 0 (S (S M)))).
    split; [now rewrite length_map, length_seq|].
    intros w Hw. apply in_map_iff in Hw. destruct Hw as (i & <- & _).
    unfold hanning_sample.
    pose proof (COS_bound (PI * (1 - INR (S (S M)) + 2 * INR i) / (INR (S (S M)) - 1))).
    lra.
Qed.

Lemma removelast_facts {A : Type} (l : list A) :
  List.length (removelast l) = Nat.pred (List.length l)
  /\ forall x, In x (removelast l) -> In x l.
Proof.
  induction l as [|a l [IHlen IHin]]; [split; [reflexivity|intros x []]|].
  destruct l as [|b l]; [split; [reflexivity|intros x []]|].
  change (removelast (a :: b :: l)) with (a :: removelast (b :: l)).
  split.
  - cbn [List.length] in *. now rewrite IHlen.
  - intros x [<-|Hx]; [now left|right; now apply IHin].
Qed.

(** Whatever [hann_type] and [n_fft] are, the window has exactly [n_fft]
    samples, as many as a frame, and each lies between 0 and 1. *)
Theorem window_matches_frame (hann_type : String.string) (n_fft : nat) :
  List.length (window hann_type n_fft) = n_fft
  /\ forall w, In w (window hann_type n_fft) -> 0 <= w <= 1.
Proof.
  unfold window. destruct (String.eqb hann_type "periodic"%string).
  - apply np_hanning_facts.
  - destruct (np_hanning_facts (n_fft + 1)) as [Hlen Hin].
    destruct (removelast_facts (np_hanning (n_fft + 1))) as [Hrl Hri].
    split; [rewrite Hrl, Hlen; lia|].
    intros w Hw. apply Hin, Hri, Hw.
Qed.

End Hann.

(* ====================================================================== *)
(** * The mel filterbank and the framing of [compare_mel.py] *)
(* ====================================================================== *)

Module Mel.

Import Util.
Local Open Scope Z_scope.

Definition SAMPLE_RATE : Z := 16000.
Definition N_FFT : Z := 400.
Definition HOP_LENGTH : Z := 160.
Definition N_MELS : Z := 128.

(** [range(lo, hi)]. *)
Definition range2 (lo hi : Z) : list Z := map (fun k => lo + k) (Encoder.range (hi - lo)).

(** [row[j] = v] on one row of a numpy array; [None] is the IndexError. *)
Definition assign (row : list Q) (j : Z) (v : Q) : option (list Q) :=
  let j' := if j <? 0 then j + lenZ row else j in
  if (0 <=? j') && (j' <? lenZ row)
  then Some (firstn (Z.to_nat j') row ++ v :: skipn (S (Z.to_nat j')) row)
  else None.

(** [for j in js: row[j] = f(j)]. *)
Fixpoint fill (row : list Q) (js : list Z) (f : Z -> Q) : option (list Q) :=
  match js with
  | [] => Some row
  | j :: js' =>
      match assign row j (f j) with
      | Some row' => fill row' js' f
      | None => None
      end
  end.

(** The two slopes of a filter.  The quotient of the two integers is taken
    in the rationals; the float64 division of the source rounds it. *)
Definition rising (left center j : Z) : Q :=
  (inject_Z (j - left) / inject_Z (center - left))%Q.
Definition falling (center right j : Z) : Q :=
  (inject_Z (right - j) / inject_Z (right - center))%Q.

(** The body of the loop of [create_mel_filterbank] on the row of one
    filter, from [np.zeros]. *)
Definition filterbank_row (n_freqs left center right : Z) : option (list Q) :=
  let row := repeat 0%Q (Z.to_nat n_freqs) in
  match
    (if center >? left
     then fill row (range2 (Z.max 0 left) (Z.min n_freqs center)) (rising left center)
     else Some row)
  with
  | None => None
  | Some row =>
      if right >? center
      then fill row (range2 (Z.max 0 center) (Z.min n_freqs right)) (falling center right)
      else Some row
  end.

Fixpoint all_some {A : Type} (l : list (option A)) : option (list A) :=
  match l with
  | [] => Some []
  | None :: _ => None
  | Some x :: l' =>
      match all_some l' with
      | Some xs => Some (x :: xs)
      | None => None
      end
  end.

(** [create_mel_filterbank], from the bin numbers on: [bin_points], which
    the source computes in floating point from the mel scale, is a
    parameter here.  [None] is an IndexError. *)
Definition create_mel_filterbank (n_fft n_mels : Z) (bin_points : list Z)
  : option (list (list Q)) :=
  let n_freqs := n_fft / 2 + 1 in
  all_some
    (map (fun i =>
            match nth_error bin_points (Z.to_nat i),
                  nth_error bin_points (Z.to_nat (i + 1)),
                  nth_error bin_points (Z.to_nat (i + 2)) with
            | Some l, Some c, Some r => filterbank_row n_freqs l c r
            | _, _, _ => None
            end)
         (Encoder.range n_mels)).

(** [n_frames] and the frames of [compute_mel_manual], cut from the padded
    signal; [None] is the ZeroDivisionError of a hop of 0. *)
Definition frame_count (padded_len n_fft hop_length : Z) : option Z :=
  if hop_length =? 0 then None else Some ((padded_len - n_fft) / hop_length + 1).

Definition frames {A : Type} (padded : list A) (n_fft hop_length : Z)
  : option (list (list A)) :=
  match frame_count (lenZ padded) n_fft hop_length with
  | None => None
  | Some n_frames =>
      Some (map (fun i => Encoder.py_slice padded (i * hop_length) (i * hop_length + n_fft))
                (Encoder.range n_frames))
  end.

Lemma in_range2 (lo hi j : Z) : In j (range2 lo hi) <-> lo <= j < hi.
Proof.
  unfold range2. rewrite in_map_iff. split.
  - intros (k & <- & Hk). apply Encoder.in_range in Hk. lia.
  - intros Hj. exists (j - lo). split; [lia|]. apply Encoder.in_range. lia.
Qed.

Lemma existsb_range2 (lo hi k : Z) :
  existsb (Z.eqb k) (range2 lo hi) = (lo <=? k) && (k <? hi).
Proof.
  destruct (existsb (Z.eqb k) (range2 lo hi)) eqn:E.
  - apply existsb_exists in E. destruct E as (j & Hj & Hk).
    apply Z.eqb_eq in Hk. subst j. apply in_range2 in Hj.
    symmetry. apply andb_true_iff. rewrite Z.leb_le, Z.ltb_lt. lia.
  - destruct (Z.leb_spec lo k), (Z.ltb_spec k hi); try reflexivity.
    assert (Ht : existsb (Z.eqb k) (range2 lo hi) = true); [|congruence].
    apply existsb_exists. exists k. split; [apply in_range2; lia|apply Z.eqb_refl].
Qed.

Lemma nth_replaced {A : Type} (row : list A) (j k : nat) (v d : A) :
  (j < List.length row)%nat ->
  List.length (firstn j row ++ v :: skipn (S j) row) = List.length row
  /\ nth k (firstn j row ++ v :: skipn (S j) row) d
     = if Nat.eqb k j then v else nth k row d.
Proof.
  revert j k. induction row as [|x row IH]; intros j k Hj; [simpl in Hj; lia|].
  destruct j as [|j].
  - cbn [firstn skipn app List.length]. split; [reflexivity|]. now destruct k.
  - cbn [firstn skipn app List.length] in *.
    destruct (IH j (Nat.pred k) ltac:(lia)) as [Hlen Hnth].
    split; [now rewrite Hlen|].
    destruct k as [|k]; [reflexivity|]. cbn [nth Nat.eqb]. exact (proj2 (IH j k ltac:(lia))).
Qed.

Lemma fill_spec (js : list Z) (f : Z -> Q) (row : list Q) :
  Forall (fun j => 0 <= j < lenZ row) js ->
  exists row',
    fill row js f = Some row'
    /\ List.length row' = List.length row
    /\ forall k, 0 <= k < lenZ row ->
         nthZ k row' 0%Q = if existsb (Z.eqb k) js then f k else nthZ k row 0%Q.
Proof.
  revert row. induction js as [|j js IH]; intros row Hjs.
  { exists row. repeat split. }
  inversion Hjs as [|? ? Hj Hjs']; subst.
  cbn [fill]. unfold assign.
  destruct (Z.ltb_spec j 0); [lia|].
  destruct (Z.leb_spec 0 j); [|lia].
  destruct (Z.ltb_spec j (lenZ row)); [|lia]. cbn [andb].
  set (row1 := firstn (Z.to_nat j) row ++ f j :: skipn (S (Z.to_nat j)) row).
  assert (Hlt : (Z.to_nat j < List.length row)%nat) by (unfold lenZ in *; lia).
  assert (Hlen1 : List.length row1 = List.length row)
    by exact (proj1 (nth_replaced row (Z.to_nat j) 0 (f j) 0%Q Hlt)).
  destruct (IH row1) as (row' & Hfill & Hlen & Hnth).
  { unfold lenZ. rewrite Hlen1. exact Hjs'. }
  exists row'. split; [exact Hfill|]. split; [congruence|].
  intros k Hk. rewrite Hnth by (unfold lenZ in *; rewrite Hlen1; lia).
  cbn [existsb]. destruct (existsb (Z.eqb k) js).
  { now rewrite orb_true_r. }
  rewrite orb_false_r. unfold nthZ. destruct (Z.ltb_spec k 0); [lia|].
  unfold row1. rewrite (proj2 (nth_replaced row (Z.to_nat j) (Z.to_nat k) (f j) 0%Q Hlt)).
  destruct (Z.eqb_spec k j) as [->|Hne].
  - now rewrite Nat.eqb_refl.
  - destruct (Nat.eqb_spec (Z.to_nat k) (Z.to_nat j)); [lia|reflexivity].
Qed.

Lemma nthZ_zeros (n k : Z) : nthZ k (repeat 0%Q (Z.to_nat n)) 0%Q = 0%Q.
Proof.
  unfold nthZ. destruct (k <? 0); [reflexivity|].
  generalize (Z.to_nat k). induction (Z.to_nat n) as [|m IH]; intros [|p];
    cbn [repeat nth]; auto.
Qed.

(** The entries of one row in closed form. *)
Lemma filterbank_row_entries (n_freqs left center right : Z) :
  0 <= n_freqs ->
  exists row,
    filterbank_row n_freqs left center right = Some row
    /\ lenZ row = n_freqs
    /\ forall j, 0 <= j < n_freqs ->
         nthZ j row 0%Q
         = if (center <=? j) && (j <? right) then falling center right j
           else if (left <=? j) && (j <? center) then rising left center j
           else 0%Q.
Proof.
  intros Hn. unfold filterbank_row.
  set (zeros := repeat 0%Q (Z.to_nat n_freqs)).
  assert (Hz : lenZ zeros = n_freqs).
  { unfold lenZ, zeros. rewrite repeat_length. lia. }
  assert (H1 : exists row1,
             (if center >? left
              then fill zeros (range2 (Z.max 0 left) (Z.min n_freqs center))
                        (rising left center)
              else Some zeros) = Some row1
             /\ lenZ row1 = n_freqs
             /\ forall j, 0 <= j < n_freqs ->
                  nthZ j row1 0%Q
                  = if (left <=? j) && (j <? center) then rising left center j else 0%Q).
  { destruct (Z.gtb_spec center left) as [Hc|Hc].
    - destruct (fill_spec (range2 (Z.max 0 left) (Z.min n_freqs center))
                  (rising left center) zeros) as (row1 & Hf & Hl & Hnth).
      + apply Forall_forall. intros j Hj. apply in_range2 in Hj. lia.
      + exists row1. split; [exact Hf|]. split; [unfold lenZ in *; lia|].
        intros j Hj. rewrite Hnth by lia. rewrite existsb_range2.
        unfold zeros. rewrite nthZ_zeros.
        destruct (Z.leb_spec (Z.max 0 left) j), (Z.ltb_spec j (Z.min n_freqs center)),
          (Z.leb_spec left j), (Z.ltb_spec j center); cbn [andb]; reflexivity || lia.
    - exists zeros. split; [reflexivity|]. split; [exact Hz|].
      intros j Hj. unfold zeros. rewrite nthZ_zeros.
      destruct (Z.leb_spec left j), (Z.ltb_spec j center); cbn [andb]; reflexivity || lia. }
  destruct H1 as (row1 & -> & Hl1 & Hnth1).
  destruct (Z.gtb_spec right center) as [Hr|Hr].
  - destruct (fill_spec (range2 (Z.max 0 center) (Z.min n_freqs right))
                (falling center right) row1) as (row2 & Hf & Hl & Hnth).
    + apply Forall_forall. intros j Hj. apply in_range2 in Hj. lia.
    + exists row2. split; [exact Hf|]. split; [unfold lenZ in *; lia|].
      intros j Hj. rewrite Hnth by lia. rewrite existsb_range2, Hnth1 by lia.
      destruct (Z.leb_spec (Z.max 0 center) j), (Z.ltb_spec j (Z.min n_freqs right)),
        (Z.leb_spec center j), (Z.ltb_spec j right); cbn [andb]; reflexivity || lia.
  - exists row1. split; [reflexivity|]. split; [exact Hl1|].
    intros j Hj. rewrite Hnth1 by lia.
    destruct (Z.leb_spec center j), (Z.ltb_spec j right); cbn [andb]; reflexivity || lia.
Qed.

Lemma quotient_in_unit_interval (a b : Z) :
  0 <= a <= b -> 0 < b -> (0 <= inject_Z a / inject_Z b <= 1)%Q.
Proof.
  intros Ha Hb.
  assert (Hb' : (0 < inject_Z b)%Q).
  { change 0%Q with (inject_Z 0). rewrite <- Zlt_Qlt. exact Hb. }
  split.
  - apply Qle_shift_div_l; [exact Hb'|]. rewrite Qmult_0_l.
    change 0%Q with (inject_Z 0). rewrite <- Zle_Qle. lia.
  - apply Qle_shift_div_r; [exact Hb'|]. rewrite Qmult_1_l.
    rewrite <- Zle_Qle. lia.
Qed.

Lemma all_some_map {A B : Type} (g : A -> option B) (P : A -> B -> Prop) (l : list A) :
  (forall x, In x l -> exists y, g x = Some y /\ P x y) ->
  exists ys, all_some (map g l) = Some ys /\ Forall2 P l ys.
Proof.
  induction l as [|x l IH]; intros H.
  { exists []. split; [reflexivity|constructor]. }
  destruct (H x ltac:(now left)) as (y & Hy & HP).
  destruct IH as (ys & Hys & HF); [intros x' Hx'; apply H; now right|].
  exists (y :: ys). cbn [map all_some]. rewrite Hy, Hys.
  split; [reflexivity|now constructor].
Qed.

(** Every filter is a triangle on its three bin points.  For [n_mels + 2]
    bin numbers in nondecreasing order, [create_mel_filterbank] returns
    [n_mels] rows of [n_fft // 2 + 1] weights; every weight lies in [0, 1];
    row [i] is zero below [bin_points[i]] and from [bin_points[i + 2]] on,
    rises on [[left, center)], falls on [[center, right)], and is 1 at its
    centre bin whenever that bin is below [right].  A filter whose three bin
    numbers coincide is zero everywhere. *)
Theorem mel_filters_are_triangles (n_fft n_mels : Z) (bin_points : list Z) :
  0 <= n_fft -> 0 <= n_mels ->
  lenZ bin_points = n_mels + 2 ->
  (forall i, 0 <= i <= n_mels -> nthZ i bin_points 0 <= nthZ (i + 1) bin_points 0) ->
  exists filterbank,
    create_mel_filterbank n_fft n_mels bin_points = Some filterbank
    /\ lenZ filterbank = n_mels
    /\ Forall2
         (fun i row =>
            let left := nthZ i bin_points 0 in
            let center := nthZ (i + 1) bin_points 0 in
            let right := nthZ (i + 2) bin_points 0 in
            lenZ row = n_fft / 2 + 1
            /\ forall j, 0 <= j < n_fft / 2 + 1 ->
                 let w := nthZ j row 0%Q in
                 (0 <= w <= 1)%Q
                 /\ (j < left \/ right <= j -> w = 0%Q)
                 /\ (left <= j < center -> w = rising left center j)
                 /\ (center <= j < right -> w = falling center right j)
                 /\ (j = center -> center < right -> (w == 1)%Q)
                 /\ (left = right -> w = 0%Q))
         (Encoder.range n_mels) filterbank.
Proof.
  intros Hfft Hmels Hlen Hsorted.
  assert (Hfreqs : 0 <= n_fft / 2 + 1).
  { assert (0 <= n_fft / 2) by (apply Z.div_pos; lia). lia. }
  unfold create_mel_filterbank.
  match goal with
  | |- exists x, all_some (map ?g _) = Some x /\ _ /\ Forall2 ?P _ x =>
      destruct (all_some_map g P (Encoder.range n_mels)) as (rows & Hrows & HF)
  end.
  2:{ exists rows. split; [exact Hrows|]. split; [|exact HF].
      apply Forall2_length in HF. rewrite Encoder.length_range in HF.
      unfold lenZ. lia. }
  intros i Hi. apply Encoder.in_range in Hi.
  assert (Hget : forall k, 0 <= k < n_mels + 2 ->
             nth_error bin_points (Z.to_nat k) = Some (nthZ k bin_points 0)).
  { intros k Hk. unfold nthZ. destruct (Z.ltb_spec k 0); [lia|].
    apply nth_error_nth'. unfold lenZ in Hlen. lia. }
  rewrite !Hget by lia.
  pose proof (Hsorted i ltac:(lia)) as Hlc.
  pose proof (Hsorted (i + 1) ltac:(lia)) as Hcr.
  replace (i + 1 + 1) with (i + 2) in Hcr by lia.
  set (left := nthZ i bin_points 0) in *.
  set (center := nthZ (i + 1) bin_points 0) in *.
  set (right := nthZ (i + 2) bin_points 0) in *.
  destruct (filterbank_row_entries (n_fft / 2 + 1) left center right Hfreqs)
    as (row & Hrow & Hl & Hnth).
  exists row. split; [exact Hrow|]. split; [exact Hl|].
  intros j Hj. cbv zeta. rewrite (Hnth j Hj).
  destruct (Z.leb_spec center j) as [Hcj|Hcj], (Z.ltb_spec j right) as [Hjr|Hjr];
    cbn [andb].
  - split; [apply quotient_in_unit_interval; lia|].
    split; [lia|]. split; [lia|]. split; [reflexivity|].
    split; [|lia].
    intros -> _. unfold falling, Qdiv. apply Qmult_inv_r.
    intros Heq. apply (inject_Z_injective (right - center) 0) in Heq. lia.
  - destruct (Z.leb_spec left j), (Z.ltb_spec j center); cbn [andb]; try lia.
    split; [split; apply Qle_refl || discriminate|].
    repeat split; reflexivity || lia.
  - destruct (Z.leb_spec left j) as [Hlj|Hlj], (Z.ltb_spec j center); cbn [andb]; try lia.
    + split; [apply quotient_in_unit_interval; lia|].
      split; [lia|]. split; [reflexivity|]. repeat split; lia.
    + split; [split; apply Qle_refl || discriminate|].
      repeat split; reflexivity || lia.
  - lia.
Qed.

Lemma mel_filters_are_triangles_witness :
  exists filterbank,
    create_mel_filterbank 8 3 [0; 1; 1; 3; 4] = Some filterbank
    /\ lenZ filterbank = 3.
Proof.
  destruct (mel_filters_are_triangles 8 3 [0; 1; 1; 3; 4]) as (fb & Hfb & Hl & _).
  - lia.
  - lia.
  - reflexivity.
  - intros i Hi.
    assert (Hc : i = 0 \/ i = 1 \/ i = 2 \/ i = 3) by lia.
    destruct Hc as [-> | [-> | [-> | ->]]]; vm_compute; discriminate.
  - exists fb. split; assumption.
Defined.

(** Three filters on five bins of an FFT of size 8: the first has its
    three bin numbers within one bin and is zero everywhere. *)
Example filterbank_8_3 :
  create_mel_filterbank 8 3 [0; 1; 1; 3; 4]
  = Some [[0; 0; 0; 0; 0];
          [0; 2 # 2; 1 # 2; 0; 0];
          [0; 0 # 2; 1 # 2; 1; 0]]%Q.
Proof. reflexivity. Qed.

(** Every frame [compute_mel_manual] cuts is whole.  For a signal of at
    least one sample, padded by [n_fft // 2] on both sides, and a positive
    hop, there is at least one frame, there are
    [(len(signal) - n_fft % 2) // hop_length + 1] of them, each has exactly
    [n_fft] samples (so the product with the window is well formed), and
    fewer than [hop_length] samples of the padded signal lie after the
    last frame. *)
Theorem frames_are_whole {A : Type} (signal padded : list A) (n_fft hop_length : Z) :
  0 <= n_fft -> 0 < hop_length -> 1 <= lenZ signal ->
  lenZ padded = lenZ signal + 2 * (n_fft / 2) ->
  exists fs,
    frames padded n_fft hop_length = Some fs
    /\ lenZ fs = (lenZ signal - n_fft mod 2) / hop_length + 1
    /\ 1 <= lenZ fs
    /\ Forall (fun frame => lenZ frame = n_fft) fs
    /\ 0 <= lenZ padded - ((lenZ fs - 1) * hop_length + n_fft) < hop_length.
Proof.
  intros Hfft Hhop Hsig Hpad.
  unfold frames, frame_count.
  destruct (Z.eqb_spec hop_length 0); [lia|].
  eexists. split; [reflexivity|].
  pose proof (Z.div_mod n_fft 2 ltac:(lia)) as Hdm.
  pose proof (Z.mod_pos_bound n_fft 2 ltac:(lia)) as Hm.
  assert (Hdiff : lenZ padded - n_fft = lenZ signal - n_fft mod 2) by lia.
  set (d := lenZ signal - n_fft mod 2) in *.
  assert (Hd : 0 <= d) by lia.
  pose proof (Z.div_mod d hop_length ltac:(lia)) as Hdd.
  pose proof (Z.mod_pos_bound d hop_length Hhop) as Hdr.
  assert (Hq : 0 <= d / hop_length) by (apply Z.div_pos; lia).
  assert (Hcount : lenZ (map (fun i => Encoder.py_slice padded (i * hop_length)
                                         (i * hop_length + n_fft))
                             (Encoder.range ((lenZ padded - n_fft) / hop_length + 1)))
                   = d / hop_length + 1).
  { unfold lenZ at 1. rewrite length_map, Encoder.length_range, Hdiff. lia. }
  rewrite Hcount. split; [reflexivity|]. split; [lia|]. split.
  - apply Forall_forall. intros frame Hin. apply in_map_iff in Hin.
    destruct Hin as (i & <- & Hi). apply Encoder.in_range in Hi.
    rewrite Hdiff in Hi.
    assert (Hend : i * hop_length + n_fft <= lenZ padded) by nia.
    unfold Encoder.py_slice, lenZ in *.
    rewrite length_skipn, length_firstn. nia.
  - nia.
Qed.

Lemma frames_are_whole_witness :
  exists fs,
    frames (repeat 0 (Z.to_nat 16400)) 400 160 = Some fs
    /\ lenZ fs = 101.
Proof.
  destruct (frames_are_whole (repeat 0 (Z.to_nat 16000)) (repeat 0 (Z.to_nat 16400))
              400 160) as (fs & Hfs & Hl & _).
  - lia.
  - lia.
  - unfold lenZ. rewrite repeat_length. lia.
  - unfold lenZ. rewrite !repeat_length. reflexivity.
  - exists fs. split; [exact Hfs|].
    rewrite Hl. unfold lenZ. rewrite repeat_length. reflexivity.
Defined.

End Mel.
